(** * Dictionary CLI: a shallow embedding of [dictionary.py]

    The development follows the four classes of the program: [Environ]
    (configuration resolution), [Connect] (the connection context
    manager), [Queries] (the SQL interface) and [Shell] (the interactive
    loop).

    Python values are kept as the program has them: dictionaries are
    finite maps keyed by strings, an exception is a constructor of [exn],
    a call either returns or raises.  The console, the server and the
    driver are an explicit [world]: the answers the user will type, the
    table, the driver faults to come, and a record of everything the
    program printed or asked of the driver.

    What is taken from outside the program:
    - a string is a sequence of code points below 256;
    - [int], [str.strip], [str.split] and [readlines] behave as in
      CPython 3.11, the limit on the digits of an integer literal
      included; a configuration file is one opened as the program opens
      it, by [open] in text mode, so that a carriage return, alone or
      before a line feed, ends a line as a line feed does;
    - the server runs the five statements of [Queries] on a table of
      which only the column [word] matters, comparing words exactly;
    - a driver call fails when the world says so, with a driver error or
      by the user's interrupt; [connection.close()] completes;
    - the user interrupts at [input()], at [getpass()] or during a driver
      call. *)

From Stdlib Require Import ZArith String Ascii List Lia DecimalString.
From stdpp Require Import base option gmap strings list.

Local Open Scope string_scope.
Local Open Scope Z_scope.

(** ** Python values and exceptions *)

(** The values stored in the program's dictionaries: [str], [int], [None]. *)
Inductive value :=
| VStr (s : string)
| VInt (z : Z)
| VNone.

(** [mysql.connector.errors.Error]: the attributes the program reads
    ([errno], [msg]) and the text [str(err)] prints. *)
Record Error := mkError { errno : Z; msg : string; full_msg : string }.

(** The [ValueError]s the program can meet. *)
Inductive value_error :=
| NotEnoughValues (expected got : nat) (* not enough values to unpack *)
| TooManyValues (expected : nat)       (* too many values to unpack *)
| InvalidLiteral (lit : string)        (* invalid literal for int() with base 10 *)
| ExceedsLimit (digits : nat).         (* Exceeds the limit (4300 digits) *)

Inductive exn :=
| ValueError (v : value_error)
| KeyError (key : string)
| TypeError (what : string)
| EOFError (message : string)
| KeyboardInterrupt
| MySQLError (e : Error)
| IncorrectLogin (e : Error) (message : string)
| DatabaseNotFound (e : Error) (message : string)
| AccessDenied (e : Error) (message : string)
| SystemExit (code : Z).

(** The outcome of a call: a returned value or a raised exception. *)
Inductive result (A : Type) :=
| Ret (a : A)
| Raise (e : exn).
Arguments Ret {A} a.
Arguments Raise {A} e.

(** Truthiness, as used by [all(...)] and [if x:]. *)
Definition truthy (v : value) : bool :=
  match v with
  | VStr s => negb (String.eqb s "")
  | VInt z => negb (z =? 0)
  | VNone => false
  end.

(** [str(v)]. *)
Definition str (v : value) : string :=
  match v with
  | VStr s => s
  | VInt z => NilZero.string_of_int (Z.to_int z)
  | VNone => "None"
  end.

(** [d.get(k)] and [d.get(k, default)]. *)
Definition get (d : gmap string value) (k : string) : value :=
  default VNone (d !! k).
Definition get_or (d : gmap string value) (k : string) (dflt : value) : value :=
  default dflt (d !! k).

(** ** The string built-ins the resolver calls

    A character is a code point below 256. *)
Module PyStr.

Definition code (c : ascii) : N := N_of_ascii c.

(** [str.isspace] on one character, the set [str.strip()] removes. *)
Definition isspace (c : ascii) : bool :=
  let n := code c in
  ((9 <=? n) && (n <=? 13) || (28 <=? n) && (n <=? 32)
   || (n =? 133) || (n =? 160))%N.

(** The characters [int()] skips around a literal. *)
Definition int_isspace (c : ascii) : bool :=
  let n := code c in
  ((9 <=? n) && (n <=? 13) || (n =? 32) || (n =? 133) || (n =? 160))%N.

Section Strip.
Variable space : ascii -> bool.

Fixpoint lstrip_by (s : string) : string :=
  match s with
  | EmptyString => EmptyString
  | String c s' => if space c then lstrip_by s' else s
  end.

Fixpoint rstrip_by (s : string) : string :=
  match s with
  | EmptyString => EmptyString
  | String c s' =>
      match rstrip_by s' with
      | EmptyString => if space c then EmptyString else String c EmptyString
      | r => String c r
      end
  end.

Definition strip_by (s : string) : string := rstrip_by (lstrip_by s).
End Strip.

(** [s.strip()]. *)
Definition strip : string -> string := strip_by isspace.

(** [s.split(sep)] for a one-character separator. *)
Fixpoint split (sep : ascii) (s : string) : list string :=
  match s with
  | EmptyString => [EmptyString]
  | String c s' =>
      if Ascii.eqb c sep then EmptyString :: split sep s'
      else match split sep s' with
           | hd :: tl => String c hd :: tl
           | [] => [String c EmptyString]
           end
  end.

(** [s.count(c)] for a one-character argument. *)
Fixpoint count (c : ascii) (s : string) : nat :=
  match s with
  | EmptyString => 0%nat
  | String c' s' => ((if Ascii.eqb c' c then 1 else 0) + count c s')%nat
  end.

(** What a file opened by [open] in text mode hands over ([newline=None],
    universal newlines): a carriage return followed by a line feed, and a
    carriage return alone, are read as one line feed. *)
Fixpoint universal_newlines (text : string) : string :=
  match text with
  | EmptyString => EmptyString
  | String c s' =>
      if Ascii.eqb c "013" then
        String "010"
          match s' with
          | EmptyString => EmptyString
          | String c' s'' =>
              if Ascii.eqb c' "010" then universal_newlines s''
              else universal_newlines s'
          end
      else String c (universal_newlines s')
  end.

(** The lines of a text whose line ends are line feeds: every line keeps
    its line feed, the last one may lack it. *)
Fixpoint keepends (text : string) : list string :=
  match text with
  | EmptyString => []
  | String c s' =>
      if Ascii.eqb c "010" then String c EmptyString :: keepends s'
      else match keepends s' with
           | l :: ls => String c l :: ls
           | [] => [String c EmptyString]
           end
  end.

(** [file.readlines()] on a file opened by [open] in text mode, [text]
    being the decoded content of the file. *)
Definition readlines (text : string) : list string :=
  keepends (universal_newlines text).

Definition digit_of (c : ascii) : option Z :=
  let n := code c in
  if ((48 <=? n) && (n <=? 57))%N then Some (Z.of_N n - 48) else None.

(** The digits at the head of a base-10 literal: at least one digit, and
    single underscores only between digits.  [prev] tells whether the
    previous character was a digit; the result is the value, the number of
    digits read, and what follows them. *)
Fixpoint digits (s : string) (prev : bool) (acc : Z) (n : nat)
  : option (Z * nat * string) :=
  match s with
  | EmptyString => if prev then Some (acc, n, EmptyString) else None
  | String c s' =>
      match digit_of c with
      | Some d => digits s' true (10 * acc + d) (S n)
      | None =>
          if Ascii.eqb c "_" then
            if prev then digits s' false acc n else None
          else
            if prev then Some (acc, n, s) else None
      end
  end.

(** [sys.int_info.default_max_str_digits]. *)
Definition max_str_digits : nat := 4300.

(** [int(s)] for a string [s]: surrounding whitespace, an optional sign,
    then the digits and nothing more. *)
Definition int (s : string) : result Z :=
  let t := strip_by int_isspace s in
  let '(neg, body) :=
    match t with
    | String "-" r => (true, r)
    | String "+" r => (false, r)
    | _ => (false, t)
    end in
  match digits body false 0 0 with
  | None => Raise (ValueError (InvalidLiteral s))
  | Some (z, n, rest) =>
      if (max_str_digits <? n)%nat then Raise (ValueError (ExceedsLimit n))
      else if String.eqb rest "" then Ret (if neg then - z else z)
      else Raise (ValueError (InvalidLiteral s))
  end.

End PyStr.

(** [int(v)] for the values the resolver passes to it. *)
Definition int_of_value (v : value) : result Z :=
  match v with
  | VStr s => PyStr.int s
  | VInt z => Ret z
  | VNone => Raise (TypeError "int() argument must be a string, a bytes-like object or a real number, not 'NoneType'")
  end.

(** ** class Environ *)
Module Environ.

(** The [file] argument of [load]: an [io.TextIOWrapper] (with the text
    it yields), [None], or any other object. *)
Inductive file_arg :=
| TextIOWrapper (text : string)
| NoFile
| OtherObject.

(** [__CONFIG_MAP], in the order the dictionary is written. *)
Definition __CONFIG_MAP : list (string * string) :=
  [ ("host", "MYSQL_HOST");
    ("port", "MYSQL_PORT");
    ("user", "MYSQL_USER");
    ("password", "MYSQL_PASSWORD");
    ("database", "MYSQL_DATABASE");
    ("auth_plugin", "MYSQL_AUTH") ].

(** [_DEFAULT_ENV]. *)
Definition _DEFAULT_ENV : list (string * value) :=
  [ ("host", VStr "localhost");
    ("port", VInt 3306);
    ("user", VStr "root");
    ("password", VStr "Password");
    ("database", VStr "dictionary");
    ("auth_plugin", VStr "caching_sha2_password") ].

(** [key, val = line.strip().split('=')]. *)
Definition unpack2 (parts : list string) : result (string * string) :=
  match parts with
  | [key; val] => Ret (key, val)
  | [] | [_] => Raise (ValueError (NotEnoughValues 2 (length parts)))
  | _ => Raise (ValueError (TooManyValues 2))
  end.

(** The [for line in file.readlines()] loop filling [envvars]. *)
Fixpoint read_lines (lines : list string) (envvars : gmap string string)
  : result (gmap string string) :=
  match lines with
  | [] => Ret envvars
  | line :: rest =>
      match unpack2 (PyStr.split "=" (PyStr.strip line)) with
      | Ret (key, val) => read_lines rest (<[key := val]> envvars)
      | Raise e => Raise e
      end
  end.

(** A dictionary comprehension [{key: f(val) for key, val in items}]
    whose element expression may raise. *)
Fixpoint comprehension {A} (f : A -> result value)
    (items : list (string * A)) (acc : gmap string value)
  : result (gmap string value) :=
  match items with
  | [] => Ret acc
  | (key, val) :: rest =>
      match f val with
      | Ret v => comprehension f rest (<[key := v]> acc)
      | Raise e => Raise e
      end
  end.

(** [envvars[val]]. *)
Definition subscript (envvars : gmap string string) (val : string)
  : result value :=
  match envvars !! val with
  | Some v => Ret (VStr v)
  | None => Raise (KeyError val)
  end.

(** [{key: envvars[val] for key, val in cls.__CONFIG_MAP.items()}]. *)
Definition map_config (envvars : gmap string string)
  : result (gmap string value) :=
  comprehension (subscript envvars) __CONFIG_MAP ∅.

(** [os.environ.get(v, 0)] and [os.getenv(v)]. *)
Definition environ_get (environ : gmap string string) (v : string) : value :=
  match environ !! v with Some s => VStr s | None => VInt 0 end.
Definition getenv (environ : gmap string string) (v : string) : value :=
  match environ !! v with Some s => VStr s | None => VNone end.

(** The body of [load] before the port is cast: the dictionary [env]. *)
Definition load_env (file : file_arg) (environ : gmap string string)
  : result (gmap string value) :=
  match file with
  | TextIOWrapper text =>
      match read_lines (PyStr.readlines text) ∅ with
      | Ret envvars => map_config envvars
      | Raise e => Raise e
      end
  | NoFile =>
      let envvars := map (fun kv => environ_get environ (snd kv)) __CONFIG_MAP in
      if forallb truthy envvars
      then comprehension (fun val => Ret (getenv environ val)) __CONFIG_MAP ∅
      else comprehension Ret _DEFAULT_ENV ∅
  | OtherObject => comprehension Ret _DEFAULT_ENV ∅
  end.

(** [env.update(port=int(env.get('port')))]. *)
Definition cast_port (env : gmap string value) : result (gmap string value) :=
  match int_of_value (get env "port") with
  | Ret p => Ret (<["port" := VInt p]> env)
  | Raise e => Raise e
  end.

(** [Environ.load(file)], reading [os.environ]. *)
Definition load (file : file_arg) (environ : gmap string string)
  : result (gmap string value) :=
  match load_env file environ with
  | Ret env => cast_port env
  | Raise e => Raise e
  end.

End Environ.

(** ** The world the program runs in

    The console, the database server and the driver are the program's
    environment.  What the user types, what the server answers and where
    the driver fails are inputs; what the program prints and asks of the
    driver is recorded in [events], oldest first. *)

(** One answer of the user to [input()] or [getpass()]: a line, or CTRL+C.
    When the list is exhausted the console is at end of file. *)
Inductive inp :=
| Line (s : string)
| CtrlC.

(** How a driver call can fail: with a [mysql.connector] [Error], or
    because the user interrupts it. *)
Inductive fault :=
| FError (e : Error)
| FInterrupt.

Definition exn_of_fault (f : fault) : exn :=
  match f with
  | FError e => MySQLError e
  | FInterrupt => KeyboardInterrupt
  end.

(** The statements of [Queries], each with its bound parameters
    ([version], [_select], [_insert], [_update], [_delete]). *)
Inductive statement :=
| ShowVersion
| Select (word : string)
| Insert (new_word : string)
| Update (word new_word : string)
| Delete (word : string).

(** The text of a statement, as the class holds it. *)
Definition statement_text (st : statement) : string :=
  match st with
  | ShowVersion => "SHOW VARIABLES like 'version';"
  | Select _ => "SELECT word FROM words WHERE word = %(word)s;"
  | Insert _ => "INSERT INTO words (word) VALUES (%(new_word)s);"
  | Update _ _ => "UPDATE words SET word = %(new_word)s WHERE word = %(word)s;"
  | Delete _ => "DELETE FROM words WHERE word = %(word)s;"
  end.

Inductive event :=
| EvPrompt (s : string)                (* the prompt of input() / getpass() *)
| EvWrite (s : string)                 (* sys.stdout.write(s), print *)
| EvConnect (creds : gmap string value)
| EvExecute (st : statement)           (* cursor.execute is called *)
| EvCommit                             (* connection.commit is called *)
| EvClose.

Record world := mkWorld {
  debug : bool;                               (* __debug__ *)
  stdin : list inp;                           (* what the user will type *)
  server : gmap string value -> option fault; (* how db.connect fails *)
  version : string;                           (* the server's 'version' variable *)
  table : list string;                        (* column word of table words *)
  rows : list (gmap string string);           (* rows the cursor has not returned yet *)
  faults : list (option fault);               (* one entry per later driver call *)
  running : bool;                             (* Shell.__running *)
  events : list event
}.

Definition set_stdin (w : world) (x : list inp) : world :=
  let '(mkWorld dbg _ srv ver tbl rws fts run evs) := w in
  mkWorld dbg x srv ver tbl rws fts run evs.
Definition set_table (w : world) (x : list string) : world :=
  let '(mkWorld dbg sin srv ver _ rws fts run evs) := w in
  mkWorld dbg sin srv ver x rws fts run evs.
Definition set_rows (w : world) (x : list (gmap string string)) : world :=
  let '(mkWorld dbg sin srv ver tbl _ fts run evs) := w in
  mkWorld dbg sin srv ver tbl x fts run evs.
Definition set_faults (w : world) (x : list (option fault)) : world :=
  let '(mkWorld dbg sin srv ver tbl rws _ run evs) := w in
  mkWorld dbg sin srv ver tbl rws x run evs.
Definition set_running (w : world) (x : bool) : world :=
  let '(mkWorld dbg sin srv ver tbl rws fts _ evs) := w in
  mkWorld dbg sin srv ver tbl rws fts x evs.
Definition set_events (w : world) (x : list event) : world :=
  let '(mkWorld dbg sin srv ver tbl rws fts run _) := w in
  mkWorld dbg sin srv ver tbl rws fts run x.

(** Printed and asked-for things are added at the end of the record. *)
Definition add_event (w : world) (ev : event) : world :=
  let '(mkWorld dbg sin srv ver tbl rws fts run evs) := w in
  mkWorld dbg sin srv ver tbl rws fts run (evs ++ [ev])%list.
Definition add_events (w : world) (more : list event) : world :=
  let '(mkWorld dbg sin srv ver tbl rws fts run evs) := w in
  mkWorld dbg sin srv ver tbl rws fts run (evs ++ more)%list.

(** A computation: from a world to an outcome and the world after it;
    [None] when a loop was given too little fuel. *)
Definition M (A : Type) : Type := world -> option (result A * world).

Definition ret {A} (a : A) : M A := fun w => Some (Ret a, w).
Definition raise {A} (e : exn) : M A := fun w => Some (Raise e, w).
Definition bind {A B} (m : M A) (k : A -> M B) : M B :=
  fun w =>
    match m w with
    | None => None
    | Some (Ret a, w') => k a w'
    | Some (Raise e, w') => Some (Raise e, w')
    end.

(** [try: m] with the outcome handed to the handlers. *)
Definition try_ {A} (m : M A) : M (result A) :=
  fun w =>
    match m w with
    | None => None
    | Some (r, w') => Some (Ret r, w')
    end.

(** Resume the outcome the handlers did not take ([raise]). *)
Definition resume {A} (r : result A) : M A :=
  match r with
  | Ret a => ret a
  | Raise e => raise e
  end.

Declare Scope py_scope.
Delimit Scope py_scope with py.
Notation "x <- m ;; k" := (bind m (fun x => k))
  (at level 100, m at next level, right associativity) : py_scope.
Notation "m ;;; k" := (bind m (fun _ => k))
  (at level 100, right associativity) : py_scope.
Local Open Scope py_scope.

Definition modify (f : world -> world) : M unit := fun w => Some (Ret tt, f w).
Definition gets {A} (f : world -> A) : M A := fun w => Some (Ret (f w), w).

(** [while cond(s): s = body(s)], with the loop variable [s]. *)
Fixpoint while {S} (fuel : nat) (cond : S -> M bool) (body : S -> M S) (s : S)
  : M S :=
  match fuel with
  | O => fun _ => None
  | Datatypes.S n =>
      c <- cond s ;;
      if c : bool then s' <- body s ;; while n cond body s' else ret s
  end.

(** Every loop of the program reads the console once per round, so one
    round more than the user has answers left is fuel enough. *)
Definition with_fuel {A} (f : nat -> M A) : M A :=
  fun w => f (Datatypes.S (length (stdin w))) w.

Definition nl : string := String "010" EmptyString.

(** *** The console *)
Definition emit (ev : event) : M unit :=
  modify (fun w => add_event w ev).

Definition write (s : string) : M unit := emit (EvWrite s).
Definition print (s : string) : M unit := write (s ++ nl).

(** Reading a line of the console; [eof] is the text of the [EOFError]
    raised at its end. *)
Definition read_line (eof : string) : M string :=
  fun w =>
    match stdin w with
    | [] => Some (Raise (EOFError eof), w)
    | Line s :: rest => Some (Ret s, set_stdin w rest)
    | CtrlC :: rest => Some (Raise KeyboardInterrupt, set_stdin w rest)
    end.

(** [input] raises [EOFError('EOF when reading a line')]; [getpass]
    raises an [EOFError] without arguments. *)
Definition input (prompt : string) : M string :=
  emit (EvPrompt prompt) ;;; read_line "EOF when reading a line".
Definition getpass (prompt : string) : M string :=
  emit (EvPrompt prompt) ;;; read_line "".

(** [x in l] for a list of strings. *)
Definition py_in (x : string) (l : list string) : bool :=
  existsb (String.eqb x) l.

(** *** The driver, [mysql.connector] *)
Module errorcode.
Definition ER_DBACCESS_DENIED_ERROR : Z := 1044.
Definition ER_ACCESS_DENIED_ERROR : Z := 1045.
Definition ER_BAD_DB_ERROR : Z := 1049.
End errorcode.

Module db.

(** The connection object; the program holds one. *)
Inductive connection := Conn.

(** A driver call fails when the next entry of [faults] says so. *)
Definition call : M unit :=
  fun w =>
    match faults w with
    | [] => Some (Ret tt, w)
    | None :: rest => Some (Ret tt, set_faults w rest)
    | Some f :: rest => Some (Raise (exn_of_fault f), set_faults w rest)
    end.

(** [db.connect]. *)
Definition connect (creds : gmap string value) : M connection :=
  emit (EvConnect creds) ;;;
  srv <- gets server ;;
  match srv creds with
  | None => ret Conn
  | Some f => raise (exn_of_fault f)
  end.

(** The rows of a dictionary cursor, by column name. *)
Definition version_row (ver : string) : gmap string string :=
  {[ "Variable_name" := "version"; "Value" := ver ]}.
Definition word_row (word : string) : gmap string string :=
  {[ "word" := word ]}.

(** What the server does with a statement: the new table and the rows
    it sends back. *)
Definition run_statement (ver : string) (st : statement) (tbl : list string)
  : list string * list (gmap string string) :=
  match st with
  | ShowVersion =>
      (tbl, [version_row ver])
  | Select word =>
      (tbl, map word_row (List.filter (fun r => String.eqb r word) tbl))
  | Insert new_word => ((tbl ++ [new_word])%list, [])
  | Update word new_word =>
      (map (fun r => if String.eqb r word then new_word else r) tbl, [])
  | Delete word =>
      (List.filter (fun r => negb (String.eqb r word)) tbl, [])
  end.

(** [connection.cursor(dictionary=True)]. *)
Definition cursor (conn : connection) : M unit := call.

(** [cursor.execute(statement, params)]. *)
Definition execute (st : statement) : M unit :=
  emit (EvExecute st) ;;;
  call ;;;
  modify (fun w =>
    let '(tbl, rs) := run_statement (version w) st (table w) in
    set_rows (set_table w tbl) rs).

(** [cursor.fetchone()]. *)
Definition fetchone : M (option (gmap string string)) :=
  call ;;;
  rs <- gets rows ;;
  match rs with
  | [] => ret None
  | r :: rest => modify (fun w => set_rows w rest) ;;; ret (Some r)
  end.

(** [connection.commit()]. *)
Definition commit (conn : connection) : M unit :=
  emit EvCommit ;;; call.

(** [connection.close()]. *)
Definition close (conn : connection) : M unit := emit EvClose.

End db.

(** [row[key]] on a row of a dictionary cursor. *)
Definition row_get (row : option (gmap string string)) (key : string) : M string :=
  match row with
  | None => raise (TypeError "'NoneType' object is not subscriptable")
  | Some r =>
      match r !! key with
      | Some v => ret v
      | None => raise (KeyError key)
      end
  end.

(** ** class Connect *)
Module Connect.

Definition connected_notice : string := "Connected successfully." ++ nl.
Definition closed_notice : string := nl ++ "Connection closed." ++ nl.

(** The [except Error as err] handler of [__enter__]. *)
Definition classify (err : Error) : exn :=
  if errno err =? errorcode.ER_ACCESS_DENIED_ERROR then
    IncorrectLogin err "Could not login to host with user/password provided."
  else if errno err =? errorcode.ER_DBACCESS_DENIED_ERROR then
    AccessDenied err (msg err)
  else if errno err =? errorcode.ER_BAD_DB_ERROR then
    DatabaseNotFound err (msg err)
  else MySQLError err.

Definition __enter__ (creds : gmap string value) : M db.connection :=
  r <- try_ (conn <- db.connect creds ;;
             write connected_notice ;;;
             ret conn) ;;
  match r with
  | Raise (MySQLError err) => raise (classify err)
  | _ => resume r
  end.

Definition __exit__ (conn : db.connection) : M unit :=
  db.close conn ;;;
  write closed_notice.

(** [with Connect(creds) as conn: body(conn)]: [__exit__] runs however
    the body ends, and returns [None], so the body's exception goes on. *)
Definition with_ {A} (creds : gmap string value) (body : db.connection -> M A)
  : M A :=
  conn <- __enter__ creds ;;
  r <- try_ (body conn) ;;
  __exit__ conn ;;;
  resume r.

End Connect.

(** ** class Queries *)
Module Queries.

Record t := mk { connection : db.connection }.

Definition __test : M unit :=
  db.execute ShowVersion ;;;
  res <- db.fetchone ;;
  v <- row_get res "Value" ;;
  write ("MySQL v" ++ v ++ nl).

Definition __init__ (conn : db.connection) : M t :=
  db.cursor conn ;;;
  r <- try_ __test ;;
  resume r ;;;
  ret (mk conn).

Definition select (self : t) (word : string)
  : M (option (gmap string string)) :=
  db.execute (Select word) ;;;
  db.fetchone.

Definition insert (self : t) (new_word : string) : M unit :=
  db.execute (Insert new_word) ;;;
  db.commit (connection self).

Definition update (self : t) (word new_word : string) : M unit :=
  db.execute (Update word new_word) ;;;
  db.commit (connection self).

Definition delete (self : t) (word : string) : M unit :=
  db.execute (Delete word) ;;;
  db.commit (connection self).

End Queries.

(** ** class Shell *)

Definition value_error_text (v : value_error) : string :=
  match v with
  | NotEnoughValues expected got =>
      "not enough values to unpack (expected "
      ++ NilZero.string_of_uint (Nat.to_uint expected) ++ ", got "
      ++ NilZero.string_of_uint (Nat.to_uint got) ++ ")"
  | TooManyValues expected =>
      "too many values to unpack (expected "
      ++ NilZero.string_of_uint (Nat.to_uint expected) ++ ")"
  | InvalidLiteral lit =>
      "invalid literal for int() with base 10: '" ++ lit ++ "'"
  | ExceedsLimit digits =>
      "Exceeds the limit (4300 digits) for integer string conversion: value has "
      ++ NilZero.string_of_uint (Nat.to_uint digits) ++ " digits"
      ++ "; use sys.set_int_max_str_digits() to increase the limit"
  end.

(** [str(exc)]; the [repr] of a key or literal is written for a string
    that needs no escapes. *)
Definition str_exn (e : exn) : string :=
  match e with
  | ValueError v => value_error_text v
  | KeyError key => "'" ++ key ++ "'"
  | TypeError what => what
  | EOFError message => message
  | KeyboardInterrupt => ""
  | MySQLError err => full_msg err
  | IncorrectLogin _ message => message
  | DatabaseNotFound _ message => message
  | AccessDenied _ message => message
  | SystemExit code => str (VInt code)
  end.

(** The classes the [except] clauses of [Shell.run] name. *)
Definition is_IncorrectLogin (e : exn) : bool :=
  match e with IncorrectLogin _ _ => true | _ => false end.
Definition is_Error (e : exn) : bool :=
  match e with MySQLError _ => true | _ => false end.
Definition is_Exception (e : exn) : bool :=
  match e with KeyboardInterrupt | SystemExit _ => false | _ => true end.
Definition is_KeyboardInterrupt (e : exn) : bool :=
  match e with KeyboardInterrupt => true | _ => false end.

Module Shell.

Definition title : string := "# ========== Dictionary ========== #".
Definition instr : string := "# Press CTRL+C to quit.".

Definition reprompt : string :=
  "Please answer 'y' or 'yes' for yes, or 'n' or 'no' for no.".

Definition yes_tokens : list string := ["y"; "Y"; "yes"; "Yes"].
Definition no_tokens : list string := ["n"; "N"; "no"; "No"].
Definition tokens : list string :=
  ["y"; "Y"; "yes"; "Yes"; "n"; "N"; "no"; "No"].

(** [Shell(env_file)]: the configuration is resolved once, here, from
    the file handed over or, without one, from [os.environ]. *)
Definition __init__ (env_file : Environ.file_arg) (environ : gmap string string)
  : M (gmap string value) :=
  config <- resume (match env_file with
                    | Environ.NoFile => Environ.load Environ.NoFile environ
                    | _ => Environ.load env_file environ
                    end) ;;
  modify (fun w => set_running w false) ;;;
  ret config.

Definition login_prompt : M (value * value * value * value) :=
  r <- try_ (_host <- input "What host to connect to (localhost): " ;;
             _port <- input "What port to connect to (3306): " ;;
             _user <- input "What user to connect to (root): " ;;
             _pass <- input "What password to connect with: " ;;
             ret (VStr _host, VStr _port, VStr _user, VStr _pass)) ;;
  resume r.

Definition auto_login (env : gmap string value)
  : M (value * value * value * value) :=
  r <- try_ (let _host := get env "host" in
             print ("What host to connect to (localhost): " ++ str _host) ;;;
             let _port := get env "port" in
             print ("What port to connect to (3306): " ++ str _port) ;;;
             let _user := get env "user" in
             print ("What user to connect to (root): " ++ str _user) ;;;
             _pass <- getpass "What password to connect with: " ;;
             ret (_host, _port, _user, VStr _pass)) ;;
  resume r.

Definition login (env : gmap string value) : M (gmap string value) :=
  let default_db := VStr "dictionary" in
  let default_auth := VStr "caching_sha2_password" in
  dbg <- gets debug ;;
  answers <- (if dbg : bool then login_prompt else auto_login env) ;;
  let '(host, port, username, password) := answers in
  let database := get_or env "database" default_db in
  let _auth := get_or env "auth_plugin" default_auth in
  ret (<["host" := host]> (<["port" := port]> (<["user" := username]>
      (<["password" := password]> (<["database" := database]>
      (<["auth_plugin" := _auth]> ∅)))))).

Definition _init : M unit :=
  print title ;;;
  print instr.

Definition _exit (exit_msg : exn) (exit_code : Z) : M unit :=
  let exit_msg := str_exn exit_msg ++ nl ++ "Exiting." in
  print exit_msg ;;;
  raise (SystemExit exit_code).

Definition _prompt (prompt : string) : M (option bool) :=
  user_input <- input prompt ;;
  user_input <-
    with_fuel (fun fuel =>
      while fuel
        (fun user_input => ret (negb (py_in user_input tokens)))
        (fun _ => print reprompt ;;; input prompt)
        user_input) ;;
  if py_in user_input yes_tokens then ret (Some true)
  else if py_in user_input no_tokens then ret (Some false)
  else ret None.

(** [if x:] on what [_prompt] returns. *)
Definition answered_yes (x : option bool) : bool :=
  match x with Some true => true | _ => false end.

Definition _run (query : Queries.t) : M unit :=
  term <- input "What word do you want to add/change: " ;;
  response <- Queries.select query term ;;
  match response with
  | None =>
      addnew <- _prompt ("'" ++ term ++ "' not found. "
                         ++ "Would you like to add it to the dictionary?" ++ nl
                         ++ "[y/n] ") ;;
      if answered_yes addnew then
        Queries.insert query term ;;;
        print (term ++ " added to the dictionary.")
      else ret tt
  | Some _ =>
      found <- row_get response "word" ;;
      update <- _prompt ("Found: " ++ found ++ ". "
                         ++ "Would you like to update this word?" ++ nl
                         ++ "[y/n] ") ;;
      if answered_yes update then
        old_word <- row_get response "word" ;;
        new_word <- input ("Update " ++ old_word ++ " as: ") ;;
        Queries.update query old_word new_word ;;;
        print ("Updated " ++ old_word ++ " to " ++ new_word)
      else ret tt
  end.

(** [while self.__running: try: self._run(sql) except: ...; raise]. *)
Definition main_loop (sql : Queries.t) : M unit :=
  with_fuel (fun fuel =>
    while fuel
      (fun _ => gets running)
      (fun _ =>
         r <- try_ (_run sql) ;;
         match r with
         | Ret _ => ret tt
         | Raise e => modify (fun w => set_running w false) ;;; raise e
         end)
      tt).

(** The [try] block of [run]. *)
Definition run_try (env : gmap string value) : M unit :=
  _init ;;;
  credentials <- login env ;;
  Connect.with_ credentials (fun conn =>
    sql <- Queries.__init__ conn ;;
    modify (fun w => set_running w true) ;;;
    main_loop sql).

(** The [except] clauses of [run], in the order they are written. *)
Definition run_except (e : exn) : M unit :=
  if is_IncorrectLogin e then _exit e 0
  else if is_Error e then _exit e 1
  else if is_Exception e then _exit e 1
  else if is_KeyboardInterrupt e then _exit e 0
  else raise e.

Definition run (env : gmap string value) : M unit :=
  r <- try_ (run_try env) ;;
  match r with
  | Ret _ => ret tt
  | Raise e => run_except e
  end.

End Shell.

(** ** main

    What [argparse] and the file system hand over is taken as given: the
    file of [--file], with its name, when the flag is there, and the text
    of [default.env] when that file exists. *)
Definition main (args_file : option (string * string))
    (default_env : option string) (environ : gmap string string) : M unit :=
  env <- match args_file with
         | Some (name, text) =>
             print ("Loading env from " ++ name) ;;;
             Shell.__init__ (Environ.TextIOWrapper text) environ
         | None =>
             match default_env with
             | Some text =>
                 print "Loading default env from file." ;;;
                 Shell.__init__ (Environ.TextIOWrapper text) environ
             | None =>
                 print "Loading environment variables." ;;;
                 Shell.__init__ Environ.NoFile environ
             end
         end ;;
  Shell.run env.


(** ** Vocabulary of the statements *)

(** The six variables the resolver recognises. *)
Definition six_variables : list string :=
  ["MYSQL_HOST"; "MYSQL_PORT"; "MYSQL_USER"; "MYSQL_PASSWORD";
   "MYSQL_DATABASE"; "MYSQL_AUTH"].

(** A connection parameter set. *)
Definition params (host : string) (port : Z) (user password database auth : string)
  : gmap string value :=
  {[ "host" := VStr host; "port" := VInt port; "user" := VStr user;
     "password" := VStr password; "database" := VStr database;
     "auth_plugin" := VStr auth ]}.

(** The hard-coded default parameter set. *)
Definition default_params : gmap string value :=
  params "localhost" 3306 "root" "Password" "dictionary" "caching_sha2_password".

(** A variable is set when the environment gives it a non-empty value. *)
Definition is_set (environ : gmap string string) (v : string) : Prop :=
  exists s, environ !! v = Some s /\ s <> "".

(** A line of a config file has exactly one separator. *)
Definition well_formed (line : string) : Prop :=
  PyStr.count "=" line = 1%nat.

(** A line, trimmed at both ends, reads [key=val]. *)
Definition binds (line key val : string) : Prop :=
  PyStr.strip line = key ++ "=" ++ val.

(** [val] is what the last line for [key] assigns. *)
Definition last_binding (lines : list string) (key val : string) : Prop :=
  exists pre line post,
    lines = (pre ++ line :: post)%list /\ binds line key val /\
    Forall (fun l => forall v, ~ binds l key v) post.

(** No line of the file assigns [key]. *)
Definition unbound (lines : list string) (key : string) : Prop :=
  Forall (fun l => forall v, ~ binds l key v) lines.

(** ** Sample inputs *)

(** All six variables set. *)
Definition environ_full : gmap string string :=
  {[ "MYSQL_HOST" := "db.example"; "MYSQL_PORT" := "3307";
     "MYSQL_USER" := "alice"; "MYSQL_PASSWORD" := "secret";
     "MYSQL_DATABASE" := "words"; "MYSQL_AUTH" := "mysql_native_password" ]}.

(** All six variables set, the port not a number. *)
Definition environ_bad_port : gmap string string :=
  <["MYSQL_PORT" := "abc"]> environ_full.

(** Five variables set, [MYSQL_AUTH] missing. *)
Definition environ_partial : gmap string string :=
  delete "MYSQL_AUTH" environ_full.

Definition line_host : string := "MYSQL_HOST=example" ++ nl.
Definition line_port : string := "  MYSQL_PORT=1234  " ++ nl.
Definition line_user : string := "MYSQL_USER=alice" ++ nl.
Definition line_password : string := "MYSQL_PASSWORD=secret" ++ nl.
Definition line_database : string := "MYSQL_DATABASE=words" ++ nl.
Definition line_auth : string := "MYSQL_AUTH=mysql_native_password".

(** A config file assigning the six keys. *)
Definition file_full : string :=
  line_host ++ line_port ++ line_user ++ line_password ++ line_database
  ++ line_auth.

(** A config file with a blank line. *)
Definition file_blank_line : string := line_host ++ nl ++ line_port.

(** A config file that leaves out the user. *)
Definition file_no_user : string :=
  line_host ++ line_port ++ line_password ++ line_database ++ line_auth.

(** A config file whose port is not a number. *)
Definition file_bad_port : string :=
  line_host ++ "MYSQL_PORT=abc" ++ nl ++ line_user ++ line_password
  ++ line_database ++ line_auth.

(** A carriage return, and [file_full] as a file whose lines end in
    carriage returns alone, or in a carriage return and a line feed. *)
Definition cr : string := String "013" EmptyString.

Definition file_full_cr : string :=
  "MYSQL_HOST=example" ++ cr ++ "  MYSQL_PORT=1234  " ++ cr
  ++ "MYSQL_USER=alice" ++ cr ++ "MYSQL_PASSWORD=secret" ++ cr
  ++ "MYSQL_DATABASE=words" ++ cr ++ "MYSQL_AUTH=mysql_native_password".

Definition file_full_crlf : string :=
  "MYSQL_HOST=example" ++ cr ++ nl ++ "  MYSQL_PORT=1234  " ++ cr ++ nl
  ++ "MYSQL_USER=alice" ++ cr ++ nl ++ "MYSQL_PASSWORD=secret" ++ cr ++ nl
  ++ "MYSQL_DATABASE=words" ++ cr ++ nl ++ "MYSQL_AUTH=mysql_native_password"
  ++ cr ++ nl.

(** A config file with a carriage return inside what looks like one line:
    the text after it is a line of its own, without a separator. *)
Definition file_cr_in_line : string :=
  "MYSQL_HOST=a" ++ cr ++ "b" ++ nl ++ line_port ++ line_user
  ++ line_password ++ line_database.

(** [file_full] after a line that a carriage return cuts in two, the
    second part a key without a separator. *)
Definition file_cr_before_key : string :=
  "K=v" ++ cr ++ "MYSQL_HOST" ++ nl ++ file_full.

(** How a computation ends in a world, the world after it left aside. *)
Definition outcome {A} (m : M A) (w : world) : option (result A) :=
  match m w with
  | Some (r, _) => Some r
  | None => None
  end.

(** The fault, if any, of the [i]-th driver call from now on. *)
Definition fault_at (w : world) (i : nat) : option fault :=
  default None (faults w !! i).

(** What a stretch of the record shows: how often the connection was
    closed, how often the close notice was printed, and with which
    credentials a connection was asked for. *)
Definition is_close (ev : event) : bool :=
  match ev with EvClose => true | _ => false end.
Definition is_close_notice (ev : event) : bool :=
  match ev with
  | EvWrite s => String.eqb s Connect.closed_notice
  | _ => false
  end.
Definition is_connect (ev : event) : bool :=
  match ev with EvConnect _ => true | _ => false end.

Definition closes (evs : list event) : nat :=
  length (List.filter is_close evs).
Definition close_notices (evs : list event) : nat :=
  length (List.filter is_close_notice evs).
Definition connects (evs : list event) : list (gmap string value) :=
  omap (fun ev => match ev with EvConnect c => Some c | _ => None end) evs.

(** The reading of "case-insensitive" for the yes/no tokens: the answer
    is compared after lowering its letters. *)
Definition lower_char (c : ascii) : ascii :=
  let n := PyStr.code c in
  if ((65 <=? n) && (n <=? 90))%N then ascii_of_N (n + 32) else c.
Fixpoint lower (s : string) : string :=
  match s with
  | EmptyString => EmptyString
  | String c s' => String (lower_char c) (lower s')
  end.
Definition yes_ignoring_case (s : string) : bool := py_in (lower s) ["y"; "yes"].
Definition no_ignoring_case (s : string) : bool := py_in (lower s) ["n"; "no"].

(** A world with an empty table where nothing fails. *)
Definition quiet_world (answers : list inp) (tbl : list string) : world :=
  mkWorld true answers (fun _ => None) "8.0.30" tbl [] [] false [].

(** The driver error of a refused password. *)
Definition access_denied : Error :=
  mkError 1045 "Access denied for user 'root'@'localhost' (using password: YES)"
    "1045 (28000): Access denied for user 'root'@'localhost' (using password: YES)".

(** A world whose server refuses every login. *)
Definition refusing_world (answers : list inp) : world :=
  mkWorld true answers (fun _ => Some (FError access_denied)) "8.0.30" [] [] []
          false [].

(** A lost connection, as the driver reports it. *)
Definition lost_connection : Error :=
  mkError 2013 "Lost connection to MySQL server during query"
    "2013: Lost connection to MySQL server during query".

(** What one invalid answer to a yes/no prompt adds to the record. *)
Definition asked_again (prompt : string) : list event :=
  [EvWrite (Shell.reprompt ++ nl); EvPrompt prompt].

(** ** Bounds on what a computation does to the world

    Everything the interactive loop calls between opening and closing the
    connection satisfies the same bounds: it ends (no loop runs out of
    fuel), it takes answers from the console without putting any back, it
    leaves the server and the interpreter's flags alone, it only adds to
    the record, and what it adds is neither a connection request, nor a
    close, nor the close notice. *)
Definition quiet (ev : event) : Prop :=
  is_close ev = false /\ is_close_notice ev = false /\ is_connect ev = false.

Definition frame0 (w w' : world) : Prop :=
  (length (stdin w') <= length (stdin w))%nat /\
  server w' = server w /\ debug w' = debug w /\
  exists evs, events w' = (events w ++ evs)%list /\ Forall quiet evs.

Definition frame (w w' : world) : Prop :=
  frame0 w w' /\ running w' = running w.

(** No code of the program raises [SystemExit] before [_exit] does. *)
Definition ok {A} (r : result A) : Prop :=
  forall code, r <> Raise (SystemExit code).

Definition tame {A} (m : M A) : Prop :=
  forall w, exists r w', m w = Some (r, w') /\ frame w w' /\ ok r.

(** A computation that returns has read the console at least once. *)
Definition consuming {A} (m : M A) : Prop :=
  forall w a w',
    m w = Some (Ret a, w') -> (length (stdin w') < length (stdin w))%nat.

(** [c] is a suffix of [n]. *)
Fixpoint has_suffix (c n : string) : bool :=
  String.eqb c n ||
  match n with
  | EmptyString => false
  | String _ n' => has_suffix c n'
  end.

(** What the record of a run must show about the connection: one request
    at most; no close and no close notice when no connection was opened;
    and when one was opened, exactly one close and exactly one close
    notice, in that order, after everything done on the connection and
    before the exit message. *)
Definition released (srv : gmap string value -> option fault)
    (evs : list event) : Prop :=
  match connects evs with
  | [] => closes evs = 0%nat /\ close_notices evs = 0%nat
  | [creds] =>
      match srv creds with
      | Some _ => closes evs = 0%nat /\ close_notices evs = 0%nat
      | None =>
          closes evs = 1%nat /\ close_notices evs = 1%nat /\
          exists before exit_msg,
            evs = (before ++ [EvClose; EvWrite Connect.closed_notice;
                              EvWrite exit_msg])%list
      end
  | _ => False
  end.

(** ** Vocabulary of the further properties *)

(** A write of [Queries]: the statement is handed to the cursor, then the
    commit is asked for, once, and only when the statement did not raise. *)
Definition commits_after (m : M unit) (st : statement) : Prop :=
  forall w,
    (fault_at w 0 = None -> fault_at w 1 = None ->
       exists w', m w = Some (Ret tt, w') /\
         events w' = (events w ++ [EvExecute st; EvCommit])%list) /\
    (forall f, fault_at w 0 = Some f ->
       exists w', m w = Some (Raise (exn_of_fault f), w') /\
         events w' = (events w ++ [EvExecute st])%list /\
         table w' = table w) /\
    (forall f, fault_at w 0 = None -> fault_at w 1 = Some f ->
       exists w', m w = Some (Raise (exn_of_fault f), w') /\
         events w' = (events w ++ [EvExecute st; EvCommit])%list).

(** The questions of one round of the loop. *)
Definition ask_word : string := "What word do you want to add/change: ".
Definition ask_add (term : string) : string :=
  "'" ++ term ++ "' not found. "
  ++ "Would you like to add it to the dictionary?" ++ nl ++ "[y/n] ".
Definition ask_update (found : string) : string :=
  "Found: " ++ found ++ ". "
  ++ "Would you like to update this word?" ++ nl ++ "[y/n] ".

(** A config file with the assignments of [file_full] in another order,
    a key the program does not know, and a port assigned twice. *)
Definition file_reordered : string :=
  line_auth ++ nl ++ "MYSQL_PORT=1" ++ nl ++ line_database ++ "EDITOR=vi" ++ nl
  ++ line_password ++ line_user ++ line_port ++ line_host.

(** The dictionary [envvars] of a file, empty when a line is malformed. *)
Definition envvars_of (text : string) : gmap string string :=
  match Environ.read_lines (PyStr.readlines text) ∅ with
  | Ret m => m
  | Raise _ => ∅
  end.

(** What [_init] prints, and the four questions of [login_prompt]. *)
Definition banner : list event :=
  [EvWrite (Shell.title ++ nl); EvWrite (Shell.instr ++ nl)].
Definition login_questions : list string :=
  ["What host to connect to (localhost): ";
   "What port to connect to (3306): ";
   "What user to connect to (root): ";
   "What password to connect with: "].

(** What [_exit] prints for a message. *)
Definition exit_notice (message : string) : event :=
  EvWrite (message ++ nl ++ "Exiting." ++ nl).

(** The way [main] chooses where the configuration comes from, and the
    line it prints about it. *)
Definition config_source (args_file : option (string * string))
    (default_env : option string) : Environ.file_arg :=
  match args_file, default_env with
  | Some (_, text), _ => Environ.TextIOWrapper text
  | None, Some text => Environ.TextIOWrapper text
  | None, None => Environ.NoFile
  end.

Definition loading_line (args_file : option (string * string))
    (default_env : option string) : string :=
  match args_file, default_env with
  | Some (name, _), _ => "Loading env from " ++ name
  | None, Some _ => "Loading default env from file."
  | None, None => "Loading environment variables."
  end.

(** A statement that takes rows away. *)
Definition removes (ev : event) : bool :=
  match ev with EvExecute (Delete _) => true | _ => false end.

(** From [w] to [w'] the table has lost no row and no [DELETE] was handed
    to the cursor. *)
Definition grows (w w' : world) : Prop :=
  (length (table w) <= length (table w'))%nat /\
  exists evs, events w' = (events w ++ evs)%list /\
              Forall (fun ev => removes ev = false) evs.

Definition growing {A} (m : M A) : Prop :=
  forall w r w', m w = Some (r, w') -> grows w w'.

(** *** A session, told by what the user does

    One round of the loop, as the user goes through it: the word typed,
    the answer to the yes/no question, and the replacement, typed only
    when the word was found and the answer was yes. *)
Record round := Round {
  round_term : string;
  round_yes : bool;
  round_new : string
}.

Definition round_answer (r : round) : string :=
  if round_yes r then "y" else "n".

(** What the user types in a round that starts on the table [tbl]. *)
Definition typed (tbl : list string) (r : round) : list inp :=
  Line (round_term r) :: Line (round_answer r)
  :: (if round_yes r && py_in (round_term r) tbl
      then [Line (round_new r)] else []).

(** The table after the round: the word replaced in every row that holds
    it, or added at the end, on a yes; untouched on a no. *)
Definition after_round (tbl : list string) (r : round) : list string :=
  if round_yes r then
    if py_in (round_term r) tbl
    then map (fun x => if String.eqb x (round_term r) then round_new r else x)
             tbl
    else (tbl ++ [round_term r])%list
  else tbl.

(** What the round adds to the record. *)
Definition round_events (tbl : list string) (r : round) : list event :=
  let term := round_term r in
  EvPrompt ask_word :: EvExecute (Select term)
  :: (if py_in term tbl then
        EvPrompt (ask_update term)
        :: (if round_yes r then
              [EvPrompt ("Update " ++ term ++ " as: ");
               EvExecute (Update term (round_new r)); EvCommit;
               EvWrite ("Updated " ++ term ++ " to " ++ round_new r ++ nl)]
            else [])
      else
        EvPrompt (ask_add term)
        :: (if round_yes r then
              [EvExecute (Insert term); EvCommit;
               EvWrite (term ++ " added to the dictionary." ++ nl)]
            else [])).

Fixpoint session_input (tbl : list string) (rounds : list round) : list inp :=
  match rounds with
  | [] => []
  | r :: more => (typed tbl r ++ session_input (after_round tbl r) more)%list
  end.

Fixpoint session_table (tbl : list string) (rounds : list round)
  : list string :=
  match rounds with
  | [] => tbl
  | r :: more => session_table (after_round tbl r) more
  end.

Fixpoint session_events (tbl : list string) (rounds : list round)
  : list event :=
  match rounds with
  | [] => []
  | r :: more =>
      (round_events tbl r ++ session_events (after_round tbl r) more)%list
  end.

(** * Properties *)

(** ** Strings *)
Section StringFacts.

Lemma count_app c a b :
  PyStr.count c (a ++ b) = (PyStr.count c a + PyStr.count c b)%nat.
Proof. induction a as [|x a IH]; simpl; [done | rewrite IH; lia]. Qed.

Variable space : ascii -> bool.
Variable c : ascii.
Hypothesis c_not_space : space c = false.

Lemma eqb_space_false x : space x = true -> Ascii.eqb x c = false.
Proof.
  intros Hx. destruct (Ascii.eqb_spec x c) as [->|]; [congruence | done].
Qed.

Lemma count_lstrip_by s :
  PyStr.count c (PyStr.lstrip_by space s) = PyStr.count c s.
Proof.
  induction s as [|x s IH]; simpl; [done|].
  destruct (space x) eqn:Hx; [|done].
  by rewrite IH, (eqb_space_false x Hx).
Qed.

Lemma count_rstrip_by s :
  PyStr.count c (PyStr.rstrip_by space s) = PyStr.count c s.
Proof.
  induction s as [|x s IH]; simpl; [done|].
  rewrite <- IH.
  destruct (PyStr.rstrip_by space s) as [|y r]; [|done].
  destruct (space x) eqn:Hx; simpl; [|lia].
  rewrite (eqb_space_false x Hx). done.
Qed.

Lemma count_strip_by s :
  PyStr.count c (PyStr.strip_by space s) = PyStr.count c s.
Proof. unfold PyStr.strip_by. by rewrite count_rstrip_by, count_lstrip_by. Qed.

End StringFacts.

Lemma count_strip s : PyStr.count "=" (PyStr.strip s) = PyStr.count "=" s.
Proof. by apply count_strip_by. Qed.

Lemma split_length c s : length (PyStr.split c s) = S (PyStr.count c s).
Proof.
  induction s as [|x s IH]; simpl; [done|].
  destruct (Ascii.eqb x c); simpl; [by rewrite IH|].
  destruct (PyStr.split c s); simpl in *; lia.
Qed.

Lemma split_zero c s : PyStr.count c s = 0%nat -> PyStr.split c s = [s].
Proof.
  induction s as [|y s IH]; simpl; [done|].
  destruct (Ascii.eqb y c); [lia|]. intros Hz. by rewrite (IH Hz).
Qed.

(** A string with one separator splits into what is before it and what is
    after it. *)
Lemma split_one c s :
  PyStr.count c s = 1%nat ->
  exists k v, PyStr.split c s = [k; v] /\ s = k ++ String c v.
Proof.
  induction s as [|x s IH]; simpl; [done|].
  destruct (Ascii.eqb_spec x c) as [->|Hne]; simpl.
  - intros Hc. exists "", s. split; [|done].
    rewrite split_zero by lia. done.
  - intros Hc. destruct (IH Hc) as (k & v & Hs & ->).
    rewrite Hs. by exists (String x k), v.
Qed.

Lemma split_app_sep c k v :
  PyStr.count c k = 0%nat -> PyStr.count c v = 0%nat ->
  PyStr.split c (k ++ String c v) = [k; v].
Proof.
  intros Hk Hv. induction k as [|y k IH]; simpl in *.
  - rewrite Ascii.eqb_refl. by rewrite (split_zero _ _ Hv).
  - destruct (Ascii.eqb y c); [lia|]. by rewrite (IH Hk).
Qed.

(** The built-ins on a few inputs. *)
Example strip_line : PyStr.strip ("  MYSQL_PORT=1234  " ++ nl) = "MYSQL_PORT=1234".
Proof. vm_compute. exact eq_refl. Qed.

Example split_keeps_inner_blanks :
  PyStr.split "=" (PyStr.strip (" k = v " ++ nl)) = ["k "; " v"].
Proof. vm_compute. exact eq_refl. Qed.

Example split_blank_line : PyStr.split "=" (PyStr.strip nl) = [""].
Proof. vm_compute. exact eq_refl. Qed.

Example split_two_separators : PyStr.split "=" "a=b=c" = ["a"; "b"; "c"].
Proof. vm_compute. exact eq_refl. Qed.

Example readlines_keeps_newlines :
  PyStr.readlines ("a=1" ++ nl ++ nl ++ "c=3") = ["a=1" ++ nl; nl; "c=3"].
Proof. vm_compute. exact eq_refl. Qed.

Example readlines_universal_newlines :
  PyStr.readlines ("a=1" ++ cr ++ "b=2" ++ cr ++ nl ++ "c=3" ++ nl
                   ++ cr ++ cr ++ nl ++ "d")
  = ["a=1" ++ nl; "b=2" ++ nl; "c=3" ++ nl; nl; nl; "d"].
Proof. vm_compute. exact eq_refl. Qed.

Example readlines_last_carriage_return :
  PyStr.readlines ("a=1" ++ cr) = ["a=1" ++ nl].
Proof. vm_compute. exact eq_refl. Qed.

Example int_signed_spaced : PyStr.int " -1_000 " = Ret (-1000).
Proof. vm_compute. exact eq_refl. Qed.

Example int_leading_zeros : PyStr.int "+007" = Ret 7.
Proof. vm_compute. exact eq_refl. Qed.

Example int_letters : PyStr.int "12a" = Raise (ValueError (InvalidLiteral "12a")).
Proof. vm_compute. exact eq_refl. Qed.

Example int_double_underscore :
  PyStr.int "1__0" = Raise (ValueError (InvalidLiteral "1__0")).
Proof. vm_compute. exact eq_refl. Qed.

Example int_empty : PyStr.int "" = Raise (ValueError (InvalidLiteral "")).
Proof. vm_compute. exact eq_refl. Qed.

(** ** Environ *)

Lemma binds_split line key val :
  well_formed line -> binds line key val ->
  PyStr.split "=" (PyStr.strip line) = [key; val].
Proof.
  unfold well_formed, binds. intros Hwf Hb.
  change (key ++ "=" ++ val) with (key ++ String "=" val) in Hb.
  rewrite <- count_strip, Hb, count_app in Hwf. simpl in Hwf.
  rewrite Hb. apply split_app_sep; lia.
Qed.

Lemma split_binds line :
  well_formed line ->
  exists key val,
    PyStr.split "=" (PyStr.strip line) = [key; val] /\ binds line key val.
Proof.
  intros Hwf. unfold well_formed in Hwf. rewrite <- count_strip in Hwf.
  destruct (split_one _ _ Hwf) as (k & v & Hs & Heq). by exists k, v.
Qed.

Lemma binds_inj line k v k' v' :
  well_formed line -> binds line k v -> binds line k' v' -> k = k' /\ v = v'.
Proof.
  intros Hwf H1 H2.
  pose proof (binds_split _ _ _ Hwf H1) as E1.
  pose proof (binds_split _ _ _ Hwf H2) as E2.
  rewrite E1 in E2. by simplify_eq.
Qed.

Lemma last_binding_nil key val : ~ last_binding [] key val.
Proof. intros (pre & l & post & H & _). by destruct pre. Qed.

Lemma last_binding_cons line lines key val :
  last_binding (line :: lines) key val <->
  last_binding lines key val \/ (binds line key val /\ unbound lines key).
Proof.
  split.
  - intros (pre & l & post & Heq & Hb & Hpost).
    destruct pre as [|p pre]; simplify_eq/=.
    + by right.
    + left. by exists pre, l, post.
  - intros [(pre & l & post & -> & Hb & Hpost) | [Hb Hu]].
    + by exists (line :: pre), l, post.
    + by exists [], line, lines.
Qed.

Lemma last_binding_unbound lines key val :
  last_binding lines key val -> unbound lines key -> False.
Proof.
  intros (pre & l & post & -> & Hb & _) Hu.
  unfold unbound in Hu. rewrite Forall_app, Forall_cons in Hu.
  destruct Hu as (_ & Hl & _). by apply (Hl val).
Qed.

(** The loop over the lines: with every line well formed it returns the
    dictionary of the last bindings, over what [envvars] held before. *)
Lemma read_lines_spec lines envvars :
  Forall well_formed lines ->
  exists m,
    Environ.read_lines lines envvars = Ret m /\
    forall key val,
      m !! key = Some val <->
      last_binding lines key val \/
      (unbound lines key /\ envvars !! key = Some val).
Proof.
  intros Hwf. revert envvars.
  induction Hwf as [|line lines Hl Hwf IH]; intros envvars; simpl.
  - exists envvars. split; [done|]. intros key val. split.
    + intros H. right. split; [constructor | done].
    + intros [H | [_ H]]; [by apply last_binding_nil in H | done].
  - destruct (split_binds line Hl) as (k0 & v0 & Hs & Hb). rewrite Hs. simpl.
    destruct (IH (<[k0 := v0]> envvars)) as (m & Hm & Hspec).
    exists m. split; [done|]. intros key val.
    rewrite Hspec, last_binding_cons. unfold unbound at 3.
    rewrite Forall_cons. fold (unbound lines key).
    destruct (decide (k0 = key)) as [->|Hne].
    + rewrite lookup_insert_eq. split.
      * intros [H | [Hu H]]; [by left; left|]. simplify_eq. left. by right.
      * intros [[H | [Hb' Hu]] | [[Hn _] _]].
        -- by left.
        -- right. split; [done|].
           by destruct (binds_inj _ _ _ _ _ Hl Hb Hb') as [_ ->].
        -- by destruct (Hn v0).
    + rewrite lookup_insert_ne by done. split.
      * intros [H | [Hu H]]; [by left; left|]. right. split; [|done].
        split; [|done]. intros v Hb'.
        by destruct (binds_inj _ _ _ _ _ Hl Hb Hb') as [? _].
      * intros [[H | [Hb' Hu]] | [[Hn Hu] H]].
        -- by left.
        -- by destruct (binds_inj _ _ _ _ _ Hl Hb Hb') as [? _].
        -- by right.
Qed.

(** A line with no separator, or with more than one, stops the loop with
    the [ValueError] of the unpacking. *)
Lemma read_lines_malformed lines envvars :
  Exists (fun l => ~ well_formed l) lines ->
  exists v,
    Environ.read_lines lines envvars = Raise (ValueError v) /\
    (v = NotEnoughValues 2 1 \/ v = TooManyValues 2).
Proof.
  intros Hex. revert envvars.
  induction lines as [|line lines IH]; intros envvars; [by inversion Hex|].
  simpl.
  pose proof (split_length "=" (PyStr.strip line)) as Hlen.
  rewrite count_strip in Hlen.
  destruct (PyStr.split "=" (PyStr.strip line)) as [|a [|b [|c l]]] eqn:Hs;
    simpl in *.
  - lia.
  - eauto.
  - apply IH. inversion Hex as [? ? Hbad | ? ? Hrest]; subst; [|done].
    exfalso. apply Hbad. unfold well_formed. lia.
  - eauto.
Qed.

Lemma int_raises s e : PyStr.int s = Raise e -> exists v, e = ValueError v.
Proof.
  unfold PyStr.int.
  destruct (match PyStr.strip_by PyStr.int_isspace s with
            | String "-" r => (true, r)
            | String "+" r => (false, r)
            | _ => (false, PyStr.strip_by PyStr.int_isspace s)
            end) as [neg body].
  destruct (PyStr.digits body false 0 0) as [[[z n] rest]|];
    [|intros; simplify_eq; eauto].
  destruct (PyStr.max_str_digits <? n)%nat; [intros; simplify_eq; eauto|].
  destruct (String.eqb rest ""); intros; simplify_eq; eauto.
Qed.

(** The dictionary the mapping step builds when the six keys are there. *)
Lemma map_config_resolved envvars h pt u pw d a :
  envvars !! "MYSQL_HOST" = Some h -> envvars !! "MYSQL_PORT" = Some pt ->
  envvars !! "MYSQL_USER" = Some u -> envvars !! "MYSQL_PASSWORD" = Some pw ->
  envvars !! "MYSQL_DATABASE" = Some d -> envvars !! "MYSQL_AUTH" = Some a ->
  match Environ.map_config envvars with
  | Ret env => Environ.cast_port env
  | Raise e => Raise e
  end
  = match PyStr.int pt with
    | Ret p => Ret (params h p u pw d a)
    | Raise e => Raise e
    end.
Proof.
  intros Hh Hpt Hu Hpw Hd Ha.
  unfold Environ.map_config, Environ.subscript. simpl.
  rewrite Hh, Hpt, Hu, Hpw, Hd, Ha.
  unfold Environ.cast_port, get.
  replace ((_ : gmap string value) !! "port") with (Some (VStr pt))
    by (vm_compute; exact eq_refl).
  simpl. destruct (PyStr.int pt) as [p|e]; [|done].
  f_equal.
Qed.

(** File resolution when every line is well formed and the six keys are
    assigned. *)
Lemma load_file_resolved text environ h pt u pw d a :
  let lines := PyStr.readlines text in
  Forall well_formed lines ->
  last_binding lines "MYSQL_HOST" h -> last_binding lines "MYSQL_PORT" pt ->
  last_binding lines "MYSQL_USER" u -> last_binding lines "MYSQL_PASSWORD" pw ->
  last_binding lines "MYSQL_DATABASE" d -> last_binding lines "MYSQL_AUTH" a ->
  Environ.load (Environ.TextIOWrapper text) environ
  = match PyStr.int pt with
    | Ret p => Ret (params h p u pw d a)
    | Raise e => Raise e
    end.
Proof.
  intros lines Hwf Hh Hpt Hu Hpw Hd Ha.
  destruct (read_lines_spec lines ∅ Hwf) as (m & Hm & Hspec).
  unfold Environ.load, Environ.load_env. fold lines. rewrite Hm.
  apply map_config_resolved; apply Hspec; by left.
Qed.

(** Environment resolution when the six variables are set. *)
Lemma load_environ_resolved environ h pt u pw d a :
  environ !! "MYSQL_HOST" = Some h -> environ !! "MYSQL_PORT" = Some pt ->
  environ !! "MYSQL_USER" = Some u -> environ !! "MYSQL_PASSWORD" = Some pw ->
  environ !! "MYSQL_DATABASE" = Some d -> environ !! "MYSQL_AUTH" = Some a ->
  h <> "" -> pt <> "" -> u <> "" -> pw <> "" -> d <> "" -> a <> "" ->
  Environ.load Environ.NoFile environ
  = match PyStr.int pt with
    | Ret p => Ret (params h p u pw d a)
    | Raise e => Raise e
    end.
Proof.
  intros Hh Hpt Hu Hpw Hd Ha Nh Npt Nu Npw Nd Na.
  unfold Environ.load, Environ.load_env, Environ.environ_get, Environ.getenv.
  simpl. rewrite Hh, Hpt, Hu, Hpw, Hd, Ha. simpl.
  apply String.eqb_neq in Nh, Npt, Nu, Npw, Nd, Na.
  rewrite Nh, Npt, Nu, Npw, Nd, Na. simpl.
  unfold Environ.cast_port, get.
  replace ((_ : gmap string value) !! "port") with (Some (VStr pt))
    by (vm_compute; exact eq_refl).
  simpl. destruct (PyStr.int pt) as [p|e]; [|done].
  by f_equal.
Qed.

Lemma load_defaults : Environ.cast_port
  match Environ.comprehension Ret Environ._DEFAULT_ENV ∅ with
  | Ret env => env
  | Raise _ => ∅
  end = Ret default_params.
Proof. vm_compute. exact eq_refl. Qed.

(** Environment resolution when one of the six variables is not set. *)
Lemma load_environ_defaults environ v :
  v ∈ six_variables -> ~ is_set environ v ->
  Environ.load Environ.NoFile environ = Ret default_params.
Proof.
  intros Hv Hunset.
  assert (Hfalsy : truthy (Environ.environ_get environ v) = false).
  { unfold Environ.environ_get. destruct (environ !! v) as [s|] eqn:E; [|done].
    simpl. destruct (String.eqb_spec s ""); [done|].
    exfalso. apply Hunset. by exists s. }
  unfold Environ.load, Environ.load_env.
  assert (Hall : forallb truthy
            (map (fun kv => Environ.environ_get environ kv.2) Environ.__CONFIG_MAP)
          = false).
  { destruct (forallb truthy _) eqn:Hall in |- *; [|done].
    rewrite forallb_forall in Hall.
    rewrite Hall in Hfalsy; [done|].
    apply in_map_iff.
    unfold six_variables in Hv.
    repeat (apply elem_of_cons in Hv as [->|Hv]);
      [ exists ("host", "MYSQL_HOST") | exists ("port", "MYSQL_PORT")
      | exists ("user", "MYSQL_USER") | exists ("password", "MYSQL_PASSWORD")
      | exists ("database", "MYSQL_DATABASE")
      | exists ("auth_plugin", "MYSQL_AUTH") | by apply elem_of_nil in Hv ];
      (split; [done | simpl; tauto]). }
  rewrite Hall. exact load_defaults.
Qed.

(** The mapping step stops at the first key the file does not assign. *)
Lemma comprehension_missing envvars items acc :
  (exists kv, kv ∈ items /\ envvars !! kv.2 = None) ->
  exists kv, kv ∈ items /\ envvars !! kv.2 = None /\
    Environ.comprehension (Environ.subscript envvars) items acc
    = Raise (KeyError kv.2).
Proof.
  revert acc. induction items as [|[k v] items IH]; intros acc (kv & Hin & Hnone).
  - by apply elem_of_nil in Hin.
  - simpl. unfold Environ.subscript at 1.
    destruct (envvars !! v) as [x|] eqn:E.
    + apply elem_of_cons in Hin as [->|Hin]; [simpl in Hnone; congruence|].
      destruct (IH (<[k := VStr x]> acc)) as (kv' & Hin' & Hn' & Hr); [by eauto|].
      exists kv'. split; [by right|]. done.
    + exists (k, v). split; [by left|]. done.
Qed.


Lemma binds_dec line key :
  well_formed line ->
  (exists val, binds line key val) \/ (forall val, ~ binds line key val).
Proof.
  intros Hwf. destruct (split_binds line Hwf) as (k0 & v0 & _ & Hb).
  destruct (decide (k0 = key)) as [->|Hne]; [by eauto|].
  right. intros val Hb'.
  by destruct (binds_inj _ _ _ _ _ Hwf Hb Hb') as [? _].
Qed.

Lemma unbound_or_last_binding lines key :
  Forall well_formed lines ->
  unbound lines key \/ exists val, last_binding lines key val.
Proof.
  induction 1 as [|line lines Hl Hwf IH]; [left; constructor|].
  destruct IH as [Hu | [val Hlb]].
  - destruct (binds_dec line key Hl) as [[val Hb] | Hn].
    + right. exists val. apply last_binding_cons. by right.
    + left. by constructor.
  - right. exists val. apply last_binding_cons. by left.
Qed.

Lemma config_map_variables kv :
  kv ∈ Environ.__CONFIG_MAP <-> kv.2 ∈ six_variables /\
    kv.1 = match kv.2 with
           | "MYSQL_HOST" => "host" | "MYSQL_PORT" => "port"
           | "MYSQL_USER" => "user" | "MYSQL_PASSWORD" => "password"
           | "MYSQL_DATABASE" => "database" | _ => "auth_plugin"
           end.
Proof.
  unfold Environ.__CONFIG_MAP, six_variables. destruct kv as [k v]. simpl. split.
  - intros H. repeat (apply elem_of_cons in H as [H|H]; [simplify_eq|]).
    all: try (split; [|done]).
    all: try by apply elem_of_nil in H.
    all: repeat (first [by left | right]).
  - intros [H ->].
    repeat (apply elem_of_cons in H as [->|H]).
    all: try by apply elem_of_nil in H.
    all: repeat (first [by left | right]).
Qed.

Ltac last_binding_at pre line post :=
  exists pre, line, post;
  split; [reflexivity |
  split; [reflexivity |
  repeat constructor; intros ? Hb; vm_compute in Hb; discriminate Hb]].

Ltac well_formed_lines :=
  vm_compute PyStr.readlines; repeat constructor.

(** ** The claims about Environ *)

(** C1, as stated, fails: with all six variables set and non-empty but a
    port that is not a number, [load()] returns no parameter set; it
    raises [ValueError]. *)
Lemma C1_counterexample_port_not_a_number :
  (forall v, v ∈ six_variables -> is_set environ_bad_port v) /\
  Environ.load Environ.NoFile environ_bad_port
  = Raise (ValueError (InvalidLiteral "abc")) /\
  (forall env, Environ.load Environ.NoFile environ_bad_port <> Ret env).
Proof.
  split; [|split].
  - intros v Hv. unfold six_variables in Hv.
    repeat (apply elem_of_cons in Hv as [->|Hv]);
      [ exists "db.example" | exists "abc" | exists "alice" | exists "secret"
      | exists "words" | exists "mysql_native_password"
      | by apply elem_of_nil in Hv ]; (split; [reflexivity | discriminate]).
  - vm_compute. exact eq_refl.
  - intros env H. vm_compute in H. discriminate H.
Qed.

(** C1 (amended).  With no file: when all six variables are set to
    non-empty values and [int()] accepts the value of [MYSQL_PORT], [load]
    returns the parameter set made of those values, the port as that
    integer; when any one of the six is missing or empty, it returns
    exactly the default parameter set. *)
Theorem C1_environment_all_or_nothing (environ : gmap string string) :
  (forall h pt u pw d a p,
     environ !! "MYSQL_HOST" = Some h -> environ !! "MYSQL_PORT" = Some pt ->
     environ !! "MYSQL_USER" = Some u -> environ !! "MYSQL_PASSWORD" = Some pw ->
     environ !! "MYSQL_DATABASE" = Some d -> environ !! "MYSQL_AUTH" = Some a ->
     h <> "" -> pt <> "" -> u <> "" -> pw <> "" -> d <> "" -> a <> "" ->
     PyStr.int pt = Ret p ->
     Environ.load Environ.NoFile environ = Ret (params h p u pw d a)) /\
  (forall v,
     v ∈ six_variables -> ~ is_set environ v ->
     Environ.load Environ.NoFile environ
     = Ret (params "localhost" 3306 "root" "Password" "dictionary"
                   "caching_sha2_password")).
Proof.
  split.
  - intros h pt u pw d a p Hh Hpt Hu Hpw Hd Ha Nh Npt Nu Npw Nd Na Hint.
    rewrite (load_environ_resolved environ h pt u pw d a) by done.
    by rewrite Hint.
  - intros v Hv Hunset. exact (load_environ_defaults environ v Hv Hunset).
Qed.

(** C1 (amended) on an environment with the six variables set, and on
    one without [MYSQL_AUTH]. *)
Lemma C1_witness :
  Environ.load Environ.NoFile environ_full
  = Ret (params "db.example" 3307 "alice" "secret" "words"
                "mysql_native_password") /\
  Environ.load Environ.NoFile environ_partial
  = Ret (params "localhost" 3306 "root" "Password" "dictionary"
                "caching_sha2_password").
Proof.
  split.
  - apply (proj1 (C1_environment_all_or_nothing environ_full)
             "db.example" "3307" "alice" "secret" "words"
             "mysql_native_password" 3307);
      first [reflexivity | discriminate].
  - apply (proj2 (C1_environment_all_or_nothing environ_partial) "MYSQL_AUTH").
    + unfold six_variables. repeat (first [by left | right]).
    + intros (s & Hs & _). vm_compute in Hs. discriminate Hs.
Defined.

(** C6.  A supplied config file is read line by line as [KEY=VALUE], each
    line trimmed at both ends: when every line has exactly one ['='] the
    loop yields the dictionary of the last value assigned to each key, and
    with the six keys assigned [load] returns their values (the port
    through [int()]); when some line has no ['='] or more than one, [load]
    fails with the [ValueError] of the unpacking. *)
Theorem C6_config_file_lines (text : string) (environ : gmap string string) :
  let lines := PyStr.readlines text in
  (Forall well_formed lines ->
     (exists envvars,
        Environ.read_lines lines ∅ = Ret envvars /\
        forall key val, envvars !! key = Some val <-> last_binding lines key val) /\
     (forall h pt u pw d a,
        last_binding lines "MYSQL_HOST" h -> last_binding lines "MYSQL_PORT" pt ->
        last_binding lines "MYSQL_USER" u ->
        last_binding lines "MYSQL_PASSWORD" pw ->
        last_binding lines "MYSQL_DATABASE" d ->
        last_binding lines "MYSQL_AUTH" a ->
        Environ.load (Environ.TextIOWrapper text) environ
        = match PyStr.int pt with
          | Ret p => Ret (params h p u pw d a)
          | Raise e => Raise e
          end)) /\
  (Exists (fun l => ~ well_formed l) lines ->
     exists v,
       Environ.load (Environ.TextIOWrapper text) environ = Raise (ValueError v) /\
       (v = NotEnoughValues 2 1 \/ v = TooManyValues 2)).
Proof.
  intros lines. split.
  - intros Hwf. split.
    + destruct (read_lines_spec lines ∅ Hwf) as (m & Hm & Hspec).
      exists m. split; [done|]. intros key val. rewrite Hspec. split.
      * intros [H | [_ H]]; [done | by rewrite lookup_empty in H].
      * by left.
    + intros h pt u pw d a Hh Hpt Hu Hpw Hd Ha.
      by apply load_file_resolved.
  - intros Hbad.
    destruct (read_lines_malformed lines ∅ Hbad) as (v & Hv & Hcase).
    exists v. split; [|done].
    unfold Environ.load, Environ.load_env. fold lines. by rewrite Hv.
Qed.

(** C6 on a file that assigns the six keys, and on one with a blank
    line. *)
Lemma C6_witness :
  Environ.load (Environ.TextIOWrapper file_full) ∅
  = Ret (params "example" 1234 "alice" "secret" "words" "mysql_native_password")
  /\
  exists v,
    Environ.load (Environ.TextIOWrapper file_blank_line) ∅ = Raise (ValueError v) /\
    (v = NotEnoughValues 2 1 \/ v = TooManyValues 2).
Proof.
  split.
  - refine (proj2 (proj1 (C6_config_file_lines file_full ∅) _)
              "example" "1234" "alice" "secret" "words" "mysql_native_password"
              _ _ _ _ _ _).
    + well_formed_lines.
    + last_binding_at (@nil string) line_host
        [line_port; line_user; line_password; line_database; line_auth].
    + last_binding_at [line_host] line_port
        [line_user; line_password; line_database; line_auth].
    + last_binding_at [line_host; line_port] line_user
        [line_password; line_database; line_auth].
    + last_binding_at [line_host; line_port; line_user] line_password
        [line_database; line_auth].
    + last_binding_at [line_host; line_port; line_user; line_password]
        line_database [line_auth].
    + last_binding_at
        [line_host; line_port; line_user; line_password; line_database]
        line_auth (@nil string).
  - apply (proj2 (C6_config_file_lines file_blank_line ∅)).
    vm_compute PyStr.readlines.
    apply Exists_cons_tl, Exists_cons_hd. discriminate.
Defined.

(** The line ends of the file do not matter, and a carriage return inside
    a line makes two lines of it. *)
Example load_carriage_returns :
  Environ.load (Environ.TextIOWrapper file_full_cr) ∅
  = Ret (params "example" 1234 "alice" "secret" "words" "mysql_native_password")
  /\
  Environ.load (Environ.TextIOWrapper file_full_crlf) ∅
  = Ret (params "example" 1234 "alice" "secret" "words" "mysql_native_password").
Proof. split; vm_compute; exact eq_refl. Qed.

Example load_carriage_return_in_line :
  Environ.load (Environ.TextIOWrapper file_cr_in_line) ∅
  = Raise (ValueError (NotEnoughValues 2 1)).
Proof. vm_compute. exact eq_refl. Qed.






(** C10.  A config file of well-formed lines that assigns no value to one
    of the six keys makes [load] raise [KeyError] for a key the file does
    not assign: the mapping step looks each key up in the file's own
    dictionary, and the default parameter set is not consulted. *)
Theorem C10_file_missing_key (text : string) (environ : gmap string string)
    (key : string) :
  let lines := PyStr.readlines text in
  Forall well_formed lines ->
  key ∈ six_variables ->
  unbound lines key ->
  exists k,
    k ∈ six_variables /\ unbound lines k /\
    Environ.load (Environ.TextIOWrapper text) environ = Raise (KeyError k).
Proof.
  intros lines Hwf Hkey Hunbound.
  destruct (read_lines_spec lines ∅ Hwf) as (m & Hm & Hspec).
  assert (Hnone : forall k, m !! k = None <-> unbound lines k).
  { intros k. split.
    - intros Hk. destruct (unbound_or_last_binding lines k Hwf) as [|[v Hv]];
        [done|].
      assert (m !! k = Some v) by (apply Hspec; by left). congruence.
    - intros Hu. destruct (m !! k) as [v|] eqn:E; [|done].
      apply Hspec in E as [E | [_ E]].
      + by destruct (last_binding_unbound _ _ _ E Hu).
      + by rewrite lookup_empty in E. }
  destruct (comprehension_missing m Environ.__CONFIG_MAP ∅) as (kv & Hin & Hn & Hr).
  { exists (match key with
            | "MYSQL_HOST" => "host" | "MYSQL_PORT" => "port"
            | "MYSQL_USER" => "user" | "MYSQL_PASSWORD" => "password"
            | "MYSQL_DATABASE" => "database" | _ => "auth_plugin"
            end, key).
    split; [by apply config_map_variables | by apply Hnone]. }
  exists kv.2. split; [by apply config_map_variables in Hin as [? _]|].
  split; [by apply Hnone|].
  unfold Environ.load, Environ.load_env. fold lines. rewrite Hm.
  unfold Environ.map_config. by rewrite Hr.
Qed.

(** C10 on a file that leaves out [MYSQL_USER]. *)
Lemma C10_witness :
  exists k,
    k ∈ six_variables /\ unbound (PyStr.readlines file_no_user) k /\
    Environ.load (Environ.TextIOWrapper file_no_user) ∅ = Raise (KeyError k).
Proof.
  apply (C10_file_missing_key file_no_user ∅ "MYSQL_USER").
  - well_formed_lines.
  - unfold six_variables. repeat (first [by left | right]).
  - unfold unbound. vm_compute PyStr.readlines.
    repeat constructor; intros ? Hb; vm_compute in Hb; discriminate Hb.
Defined.

(** ** Connect: classification of a failed attempt *)

(** C3.  When [db.connect] fails with a driver error, [__enter__] raises
    by the error's code: 1045 (access denied for the user) gives
    [IncorrectLogin] with the message about user and password, 1044
    (access denied to the database) gives [AccessDenied] with the driver's
    message, 1049 (unknown database) gives [DatabaseNotFound] with the
    driver's message, and any other code re-raises the driver error as it
    is.  Nothing is printed. *)
Theorem C3_connection_failure_classified
    (creds : gmap string value) (w : world) (err : Error) :
  server w creds = Some (FError err) ->
  let w' := add_event w (EvConnect creds) in
  (errno err = errorcode.ER_ACCESS_DENIED_ERROR ->
     Connect.__enter__ creds w
     = Some (Raise (IncorrectLogin err
                      "Could not login to host with user/password provided."),
             w')) /\
  (errno err = errorcode.ER_DBACCESS_DENIED_ERROR ->
     Connect.__enter__ creds w = Some (Raise (AccessDenied err (msg err)), w')) /\
  (errno err = errorcode.ER_BAD_DB_ERROR ->
     Connect.__enter__ creds w = Some (Raise (DatabaseNotFound err (msg err)), w')) /\
  (errno err <> errorcode.ER_ACCESS_DENIED_ERROR ->
   errno err <> errorcode.ER_DBACCESS_DENIED_ERROR ->
   errno err <> errorcode.ER_BAD_DB_ERROR ->
     Connect.__enter__ creds w = Some (Raise (MySQLError err), w')).
Proof.
  intros Hsrv w'.
  assert (Hrun : Connect.__enter__ creds w
                 = Some (Raise (Connect.classify err), w')).
  { subst w'. destruct w as [dbg sin srv ver tbl rws fts run evs].
    simpl in Hsrv.
    unfold Connect.__enter__, db.connect, bind, try_, emit, modify, gets.
    simpl. rewrite Hsrv. reflexivity. }
  rewrite Hrun. unfold Connect.classify.
  repeat split.
  - intros ->. reflexivity.
  - intros ->. reflexivity.
  - intros ->. reflexivity.
  - intros H1 H2 H3.
    apply Z.eqb_neq in H1, H2, H3. by rewrite H1, H2, H3.
Qed.

(** C3 on a server that refuses the password. *)
Lemma C3_witness :
  Connect.__enter__ ∅ (refusing_world [])
  = Some (Raise (IncorrectLogin access_denied
                   "Could not login to host with user/password provided."),
          add_event (refusing_world []) (EvConnect ∅)).
Proof.
  apply (proj1 (C3_connection_failure_classified ∅ (refusing_world [])
                  access_denied eq_refl)).
  reflexivity.
Defined.

(** ** Queries *)

Lemma row_lookup_value ver : db.version_row ver !! "Value" = Some ver.
Proof. vm_compute. exact eq_refl. Qed.

#[local] Arguments db.version_row : simpl never.
#[local] Arguments db.word_row : simpl never.

(** C8.  Constructing [Queries] on a connection that gives a cursor always
    asks for the server's version next.  When the query and the fetch
    succeed, the version is printed and the object is returned; when
    either of them raises, the constructor raises the same exception and
    prints nothing. *)
Theorem C8_gateway_self_test (conn : db.connection) (w : world) :
  fault_at w 0 = None ->
  (fault_at w 1 = None -> fault_at w 2 = None ->
     exists w',
       Queries.__init__ conn w = Some (Ret (Queries.mk conn), w') /\
       events w' = (events w ++ [EvExecute ShowVersion;
                                 EvWrite ("MySQL v" ++ version w ++ nl)])%list) /\
  (forall f, fault_at w 1 = Some f ->
     exists w',
       Queries.__init__ conn w = Some (Raise (exn_of_fault f), w') /\
       events w' = (events w ++ [EvExecute ShowVersion])%list) /\
  (forall f, fault_at w 1 = None -> fault_at w 2 = Some f ->
     exists w',
       Queries.__init__ conn w = Some (Raise (exn_of_fault f), w') /\
       events w' = (events w ++ [EvExecute ShowVersion])%list).
Proof.
  destruct w as [dbg sin srv ver tbl rws fts run evs].
  unfold fault_at. simpl.
  destruct fts as [|[f0|] [|[f1|] [|[f2|] rest]]]; simpl; intros H0;
    try discriminate H0; clear H0.
  all: repeat split; try (intros; discriminate).
  all: try (intros f [= <-]); try (intros f _ [= <-]); try intros _ _.
  all: eexists; split;
    [ unfold Queries.__init__, Queries.__test, db.cursor, db.execute,
        db.fetchone, db.call, row_get, write, emit, modify, gets, bind,
        try_, resume, ret, raise; simpl;
      rewrite ?row_lookup_value; simpl; reflexivity
    | simpl; rewrite <- ?app_assoc; reflexivity ].
Qed.

(** C8 on a driver that does not fail, and on one that loses the
    connection during the version query. *)
Lemma C8_witness :
  (exists w',
     Queries.__init__ db.Conn (quiet_world [] [])
     = Some (Ret (Queries.mk db.Conn), w') /\
     events w' = [EvExecute ShowVersion; EvWrite ("MySQL v8.0.30" ++ nl)]) /\
  (exists w',
     Queries.__init__ db.Conn
       (set_faults (quiet_world [] []) [None; Some (FError lost_connection)])
     = Some (Raise (MySQLError lost_connection), w') /\
     events w' = [EvExecute ShowVersion]).
Proof.
  split.
  - exact (proj1 (C8_gateway_self_test db.Conn (quiet_world [] []) eq_refl)
             eq_refl eq_refl).
  - exact (proj1 (proj2 (C8_gateway_self_test db.Conn
             (set_faults (quiet_world [] []) [None; Some (FError lost_connection)])
             eq_refl)) (FError lost_connection) eq_refl).
Defined.

(** What the server finds for [SELECT ... WHERE word = w]. *)
Lemma select_present (tbl : list string) (w : string) :
  w ∈ tbl ->
  exists rest, List.filter (fun r => String.eqb r w) tbl = w :: rest.
Proof.
  induction tbl as [|r tbl IH]; intros Hin; [by apply elem_of_nil in Hin|].
  simpl. destruct (String.eqb_spec r w) as [->|Hne]; [by eauto|].
  apply elem_of_cons in Hin as [->|Hin]; [done | by apply IH].
Qed.

Lemma select_absent (tbl : list string) (w : string) :
  w ∉ tbl -> List.filter (fun r => String.eqb r w) tbl = [].
Proof.
  induction tbl as [|r tbl IH]; intros Hnin; [done|].
  simpl. destruct (String.eqb_spec r w) as [->|Hne].
  - exfalso. apply Hnin. by left.
  - apply IH. intros Hin. apply Hnin. by right.
Qed.

Lemma update_has_new (tbl : list string) (w w' : string) :
  w ∈ tbl -> w' ∈ map (fun r => if String.eqb r w then w' else r) tbl.
Proof.
  intros Hin. apply list_elem_of_In, in_map_iff. exists w.
  rewrite String.eqb_refl. split; [done | by apply list_elem_of_In].
Qed.

Lemma update_lacks_old (tbl : list string) (w w' : string) :
  w <> w' -> w ∉ map (fun r => if String.eqb r w then w' else r) tbl.
Proof.
  intros Hne Hin. apply list_elem_of_In, in_map_iff in Hin as (r & Hr & _).
  destruct (String.eqb_spec r w); congruence.
Qed.

Ltac run_queries :=
  cbv [Queries.insert Queries.update Queries.select Queries.connection
       db.execute db.fetchone db.commit db.call db.run_statement
       emit modify gets bind ret
       add_event set_events set_rows set_table set_faults set_stdin
       debug stdin server version table rows faults running events].

(** C5, as stated, fails for a pair of equal words: after
    [update("foo", "foo")] the lookup of ["foo"] still returns the row. *)
Lemma C5_counterexample_same_word :
  "foo" ∈ table (quiet_world [] ["foo"]) /\
  outcome (Queries.update (Queries.mk db.Conn) "foo" "foo" ;;;
           Queries.select (Queries.mk db.Conn) "foo") (quiet_world [] ["foo"])
  = Some (Ret (Some (db.word_row "foo"))).
Proof. split; [by left|]. vm_compute. exact eq_refl. Qed.

(** C5 (amended).  With a driver that does not fail: for every word and
    every table, [insert(w)] followed by [select(w)] returns a row whose
    word is [w]; and for every two different words [w], [w'] with [w] in
    the table, after [update(w, w')] the lookup of [w'] returns a row whose
    word is [w'] and the lookup of [w] returns nothing. *)
Theorem C5_insert_update_then_select (self : Queries.t) (w : world) :
  faults w = [] ->
  (forall word,
     exists w',
       (Queries.insert self word ;;; Queries.select self word) w
       = Some (Ret (Some (db.word_row word)), w')) /\
  (forall word new_word,
     word ∈ table w -> word <> new_word ->
     exists w',
       (Queries.update self word new_word ;;;
        found_new <- Queries.select self new_word ;;
        found_old <- Queries.select self word ;;
        ret (found_new, found_old)) w
       = Some (Ret (Some (db.word_row new_word), None), w')).
Proof.
  destruct w as [dbg sin srv ver tbl rws fts run evs]. simpl. intros ->.
  split.
  - intros word. run_queries.
    rewrite List.filter_app. simpl. rewrite String.eqb_refl.
    destruct (List.filter (fun r => String.eqb r word) tbl) as [|r l] eqn:E.
    + simpl. eauto.
    + assert (Hr : r ∈ List.filter (fun r => String.eqb r word) tbl)
        by (rewrite E; by left).
      apply list_elem_of_In, filter_In in Hr as [_ Hr].
      apply String.eqb_eq in Hr as ->. simpl. eauto.
  - intros word new_word Hin Hne. run_queries.
    destruct (select_present _ new_word (update_has_new tbl word new_word Hin))
      as [rest ->].
    simpl. rewrite (select_absent _ word (update_lacks_old tbl word new_word Hne)).
    simpl. eauto.
Qed.

(** C5 (amended) on the words of the specification. *)
Lemma C5_witness :
  (exists w',
     (Queries.insert (Queries.mk db.Conn) "foo" ;;;
      Queries.select (Queries.mk db.Conn) "foo") (quiet_world [] ["bar"])
     = Some (Ret (Some (db.word_row "foo")), w')) /\
  (exists w',
     (Queries.update (Queries.mk db.Conn) "foo" "bar" ;;;
      found_new <- Queries.select (Queries.mk db.Conn) "bar" ;;
      found_old <- Queries.select (Queries.mk db.Conn) "foo" ;;
      ret (found_new, found_old)) (quiet_world [] ["foo"])
     = Some (Ret (Some (db.word_row "bar"), None), w')).
Proof.
  split.
  - exact (proj1 (C5_insert_update_then_select (Queries.mk db.Conn)
                    (quiet_world [] ["bar"]) eq_refl) "foo").
  - refine (proj2 (C5_insert_update_then_select (Queries.mk db.Conn)
                     (quiet_world [] ["foo"]) eq_refl) "foo" "bar" _ _).
    + by left.
    + discriminate.
Defined.

(** ** Shell: the yes/no prompt *)

Lemma py_in_spec (x : string) (l : list string) : py_in x l = true <-> x ∈ l.
Proof.
  unfold py_in. rewrite existsb_exists. split.
  - intros (y & Hin & Heq). apply String.eqb_eq in Heq as ->.
    by apply list_elem_of_In.
  - intros Hin. exists x. split; [by apply list_elem_of_In|].
    apply String.eqb_refl.
Qed.

Lemma py_in_false (x : string) (l : list string) : py_in x l = false <-> x ∉ l.
Proof.
  rewrite <- py_in_spec. destruct (py_in x l); split; try done.
Qed.

Lemma bind_Ret {A B} (m : M A) (k : A -> M B) (w w' : world) (a : A) :
  m w = Some (Ret a, w') -> (x <- m ;; k x) w = k a w'.
Proof. unfold bind. by intros ->. Qed.

Lemma bind_Raise {A B} (m : M A) (k : A -> M B) (w w' : world) (e : exn) :
  m w = Some (Raise e, w') -> (x <- m ;; k x) w = Some (Raise e, w').
Proof. unfold bind. by intros ->. Qed.

Lemma input_line prompt s dbg sin srv ver tbl rws fts run evs :
  input prompt (mkWorld dbg (Line s :: sin) srv ver tbl rws fts run evs)
  = Some (Ret s, mkWorld dbg sin srv ver tbl rws fts run
                   (evs ++ [EvPrompt prompt])).
Proof. reflexivity. Qed.

Lemma while_S {S} (fuel : nat) (cond : S -> M bool) (body : S -> M S) (s : S) :
  while (Datatypes.S fuel) cond body s
  = (c <- cond s ;;
     if c : bool then s' <- body s ;; while fuel cond body s' else ret s).
Proof. reflexivity. Qed.

Ltac run_console :=
  cbv [print write input getpass read_line emit modify gets bind ret
       add_event add_events set_events set_rows set_table set_faults
       set_stdin set_running
       debug stdin server version table rows faults running events].

(** The [while] of [_prompt], from the answer [u] just read on. *)
Lemma prompt_loop_spec (prompt v : string) (invalids : list string) :
  py_in v Shell.tokens = true ->
  Forall (fun t => py_in t Shell.tokens = false) invalids ->
  forall u more rest fuel dbg srv ver tbl rws fts run evs,
    u :: more = (invalids ++ [v])%list ->
    (length invalids < fuel)%nat ->
    while fuel
      (fun user_input => ret (negb (py_in user_input Shell.tokens)))
      (fun _ => print Shell.reprompt ;;; input prompt)
      u
      (mkWorld dbg (map Line more ++ rest) srv ver tbl rws fts run evs)
    = Some (Ret v,
            mkWorld dbg rest srv ver tbl rws fts run
              (evs ++ concat (map (fun _ => asked_again prompt) invalids))).
Proof.
  intros Hv Hinv. induction Hinv as [|i invalids Hi Hinv IH];
    intros u more rest fuel dbg srv ver tbl rws fts run evs Heq Hfuel.
  - simpl in Heq. injection Heq as -> ->.
    destruct fuel as [|fuel]; [simpl in Hfuel; lia|].
    rewrite while_S. unfold bind at 1, ret at 1. rewrite Hv.
    cbv [negb ret]. simpl. by rewrite app_nil_r.
  - simpl in Heq. injection Heq as -> ->.
    destruct fuel as [|fuel]; [simpl in Hfuel; lia|].
    destruct (invalids ++ [v])%list as [|t more'] eqn:Emore;
      [by destruct invalids|].
    rewrite while_S. unfold bind at 1, ret at 1. rewrite Hi.
    cbv [negb]. unfold bind at 1. run_console.
    change (map Line (t :: more') ++ rest)%list
      with (Line t :: (map Line more' ++ rest))%list.
    cbv iota beta.
    rewrite (IH t more' rest fuel); [|done | simpl in Hfuel; lia].
    do 3 f_equal. simpl. by rewrite <- !app_assoc.
Qed.

Lemma prompt_spec (prompt v : string) (invalids : list string) (w : world)
    (rest : list inp) :
  stdin w = (map Line invalids ++ Line v :: rest)%list ->
  Forall (fun t => py_in t Shell.tokens = false) invalids ->
  py_in v Shell.tokens = true ->
  Shell._prompt prompt w
  = Some (Ret (if py_in v Shell.yes_tokens then Some true
               else if py_in v Shell.no_tokens then Some false else None),
          set_stdin
            (add_events w (EvPrompt prompt
                           :: concat (map (fun _ => asked_again prompt) invalids)))
            rest).
Proof.
  destruct w as [dbg sin srv ver tbl rws fts run evs]. cbv [stdin].
  intros -> Hinv Hv.
  destruct (invalids ++ [v])%list as [|u more] eqn:Eum; [by destruct invalids|].
  assert (Hsin : (map Line invalids ++ Line v :: rest)%list
                 = (Line u :: map Line more ++ rest)%list).
  { change (Line v :: rest) with (map Line [v] ++ rest)%list.
    by rewrite app_assoc, <- map_app, Eum. }
  assert (Hlen : length more = length invalids).
  { apply (f_equal length) in Eum. rewrite length_app in Eum. simpl in Eum. lia. }
  rewrite Hsin. unfold Shell._prompt.
  erewrite bind_Ret by apply input_line.
  erewrite bind_Ret.
  2:{ unfold with_fuel. cbv [stdin].
      apply (prompt_loop_spec prompt v invalids Hv Hinv u more rest);
        [done | rewrite length_app, length_map; lia]. }
  rewrite <- app_assoc.
  change ([EvPrompt prompt] ++ ?l)%list with (EvPrompt prompt :: l).
  destruct (py_in v Shell.yes_tokens); [done|].
  by destruct (py_in v Shell.no_tokens).
Qed.

(** C9, as stated, fails for an answer that is a yes or a no only when
    case is ignored: ["YES"] and ["NO"] are taken as invalid, the
    re-prompt message is printed for them, and the next answer decides. *)
Lemma C9_counterexample_upper_case :
  yes_ignoring_case "YES" = true /\
  Shell._prompt "Add it? [y/n] " (quiet_world [Line "YES"; Line "n"] [])
  = Some (Ret (Some false),
          add_events (quiet_world [] [])
            [EvPrompt "Add it? [y/n] ";
             EvWrite (Shell.reprompt ++ nl);
             EvPrompt "Add it? [y/n] "]) /\
  no_ignoring_case "NO" = true /\
  Shell._prompt "Add it? [y/n] " (quiet_world [Line "NO"; Line "y"] [])
  = Some (Ret (Some true),
          add_events (quiet_world [] [])
            [EvPrompt "Add it? [y/n] ";
             EvWrite (Shell.reprompt ++ nl);
             EvPrompt "Add it? [y/n] "]).
Proof. repeat split; vm_compute; exact eq_refl. Qed.

(** C9 (amended).  When the user's answers are any number of invalid
    tokens followed by a valid one, [_prompt] shows the prompt, prints the
    re-prompt message and shows the prompt again once per invalid token,
    consumes exactly those answers, and returns [True] for a valid token
    of the yes family and [False] for one of the no family.  The valid
    tokens are exactly [y], [Y], [yes], [Yes], [n], [N], [no], [No]:
    lower case or first letter capitalised, no other casing. *)
Theorem C9_prompt_repeats (prompt : string) (w : world)
    (invalids : list string) (v : string) (rest : list inp) :
  stdin w = (map Line invalids ++ Line v :: rest)%list ->
  Forall (fun t => t ∉ ["y"; "Y"; "yes"; "Yes"; "n"; "N"; "no"; "No"]) invalids ->
  let w' :=
    set_stdin
      (add_events w (EvPrompt prompt
                     :: concat (map (fun _ => [EvWrite (Shell.reprompt ++ nl);
                                               EvPrompt prompt]) invalids)))
      rest in
  (v ∈ ["y"; "Y"; "yes"; "Yes"] ->
     Shell._prompt prompt w = Some (Ret (Some true), w')) /\
  (v ∈ ["n"; "N"; "no"; "No"] ->
     Shell._prompt prompt w = Some (Ret (Some false), w')).
Proof.
  intros Hsin Hinv w'.
  assert (Hinv' : Forall (fun t => py_in t Shell.tokens = false) invalids).
  { eapply Forall_impl; [exact Hinv|]. intros t Ht. by apply py_in_false. }
  split; intros Hv.
  - rewrite (prompt_spec prompt v invalids w rest Hsin Hinv').
    + repeat (apply elem_of_cons in Hv as [->|Hv]); try done.
      by apply elem_of_nil in Hv.
    + repeat (apply elem_of_cons in Hv as [->|Hv]); try done.
      by apply elem_of_nil in Hv.
  - rewrite (prompt_spec prompt v invalids w rest Hsin Hinv').
    + repeat (apply elem_of_cons in Hv as [->|Hv]); try done.
      by apply elem_of_nil in Hv.
    + repeat (apply elem_of_cons in Hv as [->|Hv]); try done.
      by apply elem_of_nil in Hv.
Qed.

(** C9 (amended) on the answers [maybe], [YES], [Yes]. *)
Lemma C9_witness :
  Shell._prompt "Add it? [y/n] "
    (quiet_world [Line "maybe"; Line "YES"; Line "Yes"; Line "foo"] [])
  = Some (Ret (Some true),
          set_stdin
            (add_events (quiet_world [Line "maybe"; Line "YES"; Line "Yes"; Line "foo"] [])
               [EvPrompt "Add it? [y/n] ";
                EvWrite (Shell.reprompt ++ nl); EvPrompt "Add it? [y/n] ";
                EvWrite (Shell.reprompt ++ nl); EvPrompt "Add it? [y/n] "])
            [Line "foo"]).
Proof.
  refine (proj1 (C9_prompt_repeats "Add it? [y/n] "
                   (quiet_world [Line "maybe"; Line "YES"; Line "Yes"; Line "foo"] [])
                   ["maybe"; "YES"] "Yes" [Line "foo"] eq_refl _) _).
  - repeat constructor; intros H;
      repeat (apply elem_of_cons in H as [H|H]; [discriminate H|]);
      by apply elem_of_nil in H.
  - right; right; right; left.
Defined.

(** ** Shell: the run *)

Lemma string_app_assoc (a b c : string) : (a ++ b) ++ c = a ++ (b ++ c).
Proof.
  induction a as [|x a IH]; [done|].
  change (String x ((a ++ b) ++ c) = String x (a ++ (b ++ c))). by rewrite IH.
Qed.

Lemma append_has_suffix (x c n : string) : x ++ c = n -> has_suffix c n = true.
Proof.
  revert n. induction x as [|a x IH]; intros n.
  - change ("" ++ c) with c. intros <-. destruct c; simpl; [done|].
    by rewrite Ascii.eqb_refl, String.eqb_refl.
  - change (String a x ++ c) with (String a (x ++ c)). intros <-.
    cbn [has_suffix]. rewrite (IH _ eq_refl). apply orb_true_r.
Qed.

(** A text that ends in [c] is not the close notice, when [c] is no
    suffix of it. *)
Lemma not_close_notice_suffix (x c : string) :
  has_suffix c Connect.closed_notice = false ->
  is_close_notice (EvWrite (x ++ c)) = false.
Proof.
  intros Hc. unfold is_close_notice.
  destruct (String.eqb_spec (x ++ c) Connect.closed_notice) as [E|]; [|done].
  apply append_has_suffix in E. congruence.
Qed.

Lemma quiet_write s : is_close_notice (EvWrite s) = false -> quiet (EvWrite s).
Proof. done. Qed.

Lemma frame0_refl w : frame0 w w.
Proof.
  repeat split; try done. exists []. by rewrite app_nil_r.
Qed.

Lemma frame0_trans w1 w2 w3 : frame0 w1 w2 -> frame0 w2 w3 -> frame0 w1 w3.
Proof.
  intros (Hl1 & Hs1 & Hd1 & evs1 & He1 & Hq1) (Hl2 & Hs2 & Hd2 & evs2 & He2 & Hq2).
  repeat split; try congruence; [lia|].
  exists (evs1 ++ evs2)%list. split; [|by apply Forall_app].
  by rewrite He2, He1, app_assoc.
Qed.

Lemma frame_refl w : frame w w.
Proof. split; [apply frame0_refl | done]. Qed.

Lemma frame_trans w1 w2 w3 : frame w1 w2 -> frame w2 w3 -> frame w1 w3.
Proof.
  intros [H1 R1] [H2 R2]. split; [by eapply frame0_trans | congruence].
Qed.

Lemma frame_add_event w ev : quiet ev -> frame w (add_event w ev).
Proof.
  intros Hq. destruct w. repeat split; try done.
  exists [ev]. split; [done | by constructor].
Qed.

(** *** The combinators *)

Lemma tame_ret {A} (a : A) : tame (ret a).
Proof. intros w. exists (Ret a), w. by split; [|split; [apply frame_refl|]]. Qed.

Lemma tame_raise {A} (e : exn) :
  (forall code, e <> SystemExit code) -> tame (@raise A e).
Proof.
  intros He w. exists (Raise e), w.
  split; [done|]. split; [apply frame_refl|]. intros code [= ->]. by eapply He.
Qed.

Lemma tame_bind {A B} (m : M A) (k : A -> M B) :
  tame m -> (forall a, tame (k a)) -> tame (x <- m ;; k x).
Proof.
  intros Hm Hk w. destruct (Hm w) as (r & w1 & E & F1 & Hok).
  destruct r as [a|e].
  - destruct (Hk a w1) as (r2 & w2 & E2 & F2 & Hok2).
    exists r2, w2. rewrite (bind_Ret _ _ _ _ _ E).
    split; [done|]. split; [by eapply frame_trans | done].
  - exists (Raise e), w1. rewrite (bind_Raise _ _ _ _ _ E).
    split; [done|]. split; [done|]. intros code [= ->]. by eapply Hok.
Qed.

Lemma tame_try_bind {A B} (m : M A) (k : result A -> M B) :
  tame m -> (forall r, ok r -> tame (k r)) -> tame (r <- try_ m ;; k r).
Proof.
  intros Hm Hk w. destruct (Hm w) as (r & w1 & E & F1 & Hok).
  destruct (Hk r Hok w1) as (r2 & w2 & E2 & F2 & Hok2).
  exists r2, w2. split; [|split; [by eapply frame_trans | done]].
  unfold bind, try_. by rewrite E.
Qed.

Lemma tame_resume {A} (r : result A) : ok r -> tame (resume r).
Proof.
  intros Hok. destruct r as [a|e]; [apply tame_ret|].
  apply tame_raise. intros code ->. by eapply Hok.
Qed.

Lemma tame_gets {A} (f : world -> A) : tame (gets f).
Proof. intros w. exists (Ret (f w)), w. by split; [|split; [apply frame_refl|]]. Qed.

Lemma tame_modify (f : world -> world) :
  (forall w, frame w (f w)) -> tame (modify f).
Proof. intros Hf w. exists (Ret tt), (f w). by split; [|split; [apply Hf|]]. Qed.

Lemma tame_emit ev : quiet ev -> tame (emit ev).
Proof. intros Hq. apply tame_modify. intros w. by apply frame_add_event. Qed.

Lemma tame_write s : is_close_notice (EvWrite s) = false -> tame (write s).
Proof. intros Hs. by apply tame_emit, quiet_write. Qed.

(** *** The console *)

Lemma tame_read_line eof : tame (read_line eof).
Proof.
  intros [dbg sin srv ver tbl rws fts run evs].
  destruct sin as [|[s|] rest]; simpl.
  - eexists _, _. split; [done|]. split; [apply frame_refl | done].
  - eexists _, _. split; [done|]. split; [|done].
    repeat split; simpl; try done; [lia|]. exists []. by rewrite app_nil_r.
  - eexists _, _. split; [done|]. split; [|done].
    repeat split; simpl; try done; [lia|]. exists []. by rewrite app_nil_r.
Qed.

Lemma tame_input prompt : tame (input prompt).
Proof.
  apply tame_bind; [by apply tame_emit | intros _; apply tame_read_line].
Qed.

Lemma tame_getpass prompt : tame (getpass prompt).
Proof.
  apply tame_bind; [by apply tame_emit | intros _; apply tame_read_line].
Qed.

Lemma consuming_read_line eof : consuming (read_line eof).
Proof.
  intros [dbg sin srv ver tbl rws fts run evs] a w'.
  destruct sin as [|[s|] rest]; simpl; intros [= <- <-]. simpl. lia.
Qed.

Lemma consuming_bind_tame {A B} (m : M A) (k : A -> M B) :
  consuming m -> (forall a, tame (k a)) -> consuming (x <- m ;; k x).
Proof.
  intros Hm Hk w b w' E. unfold bind in E.
  destruct (m w) as [[[a|e] w1]|] eqn:Em; [|done|done].
  apply Hm in Em. destruct (Hk a w1) as (r & w2 & E2 & [(Hl & _) _] & _).
  rewrite E in E2. injection E2 as <- <-. lia.
Qed.

Lemma consuming_tame_bind {A B} (m : M A) (k : A -> M B) :
  tame m -> (forall a, consuming (k a)) -> consuming (x <- m ;; k x).
Proof.
  intros Hm Hk w b w' E. unfold bind in E.
  destruct (Hm w) as (r & w1 & Em & [(Hl & _) _] & _). rewrite Em in E.
  destruct r as [a|e]; [|done]. apply Hk in E. lia.
Qed.

Lemma consuming_input prompt : consuming (input prompt).
Proof.
  apply consuming_tame_bind; [by apply tame_emit|].
  intros _. apply consuming_read_line.
Qed.

(** *** Loops *)

Lemma tame_while {S} (cond : S -> M bool) (body : S -> M S) :
  (forall s w, exists b, cond s w = Some (Ret b, w)) ->
  (forall s, tame (body s)) ->
  (forall s, consuming (body s)) ->
  forall fuel s w,
    (length (stdin w) < fuel)%nat ->
    exists r w', while fuel cond body s w = Some (r, w') /\ frame w w' /\ ok r.
Proof.
  intros Hcond Hbody Hcons fuel.
  induction fuel as [|fuel IH]; intros s w Hfuel; [lia|].
  rewrite while_S. destruct (Hcond s w) as [b Hb].
  rewrite (bind_Ret _ _ _ _ _ Hb). destruct b.
  - destruct (Hbody s w) as (r & w1 & E & F1 & Hok). destruct r as [s'|e].
    + rewrite (bind_Ret _ _ _ _ _ E).
      pose proof (Hcons s w s' w1 E) as Hlt.
      destruct (IH s' w1) as (r2 & w2 & E2 & F2 & Hok2); [lia|].
      exists r2, w2. split; [done|]. split; [by eapply frame_trans | done].
    + rewrite (bind_Raise _ _ _ _ _ E).
      exists (Raise e), w1. split; [done|]. split; [done|].
      intros code [= ->]. by eapply Hok.
  - exists (Ret s), w. split; [done|]. split; [apply frame_refl | done].
Qed.

Lemma tame_with_fuel_while {S} (cond : S -> M bool) (body : S -> M S) (s : S) :
  (forall s w, exists b, cond s w = Some (Ret b, w)) ->
  (forall s, tame (body s)) ->
  (forall s, consuming (body s)) ->
  tame (with_fuel (fun fuel => while fuel cond body s)).
Proof.
  intros Hcond Hbody Hcons w. unfold with_fuel.
  apply tame_while; [done | done | done | lia].
Qed.

(** *** The driver and the queries *)

Lemma ok_exn_of_fault {A} f : ok (@Raise A (exn_of_fault f)).
Proof. intros code. by destruct f. Qed.

Lemma tame_call : tame db.call.
Proof.
  intros [dbg sin srv ver tbl rws fts run evs].
  destruct fts as [|[f|] rest]; simpl; eexists _, _; (split; [done|]);
    (split; [|done || apply ok_exn_of_fault]);
    repeat split; simpl; try done; exists []; by rewrite app_nil_r.
Qed.

Lemma frame_set_rows w x : frame w (set_rows w x).
Proof. destruct w. repeat split; try done. exists []. by rewrite app_nil_r. Qed.

Lemma frame_set_table w x : frame w (set_table w x).
Proof. destruct w. repeat split; try done. exists []. by rewrite app_nil_r. Qed.

Lemma tame_execute st : tame (db.execute st).
Proof.
  unfold db.execute.
  apply tame_bind; [by apply tame_emit | intros _].
  apply tame_bind; [apply tame_call | intros _].
  apply tame_modify. intros w.
  destruct (db.run_statement (version w) st (table w)) as [t r].
  eapply frame_trans; [apply frame_set_table | apply frame_set_rows].
Qed.

Lemma tame_fetchone : tame db.fetchone.
Proof.
  unfold db.fetchone.
  apply tame_bind; [apply tame_call | intros _].
  apply tame_bind; [apply tame_gets | intros [|r rest]]; [apply tame_ret|].
  apply tame_bind; [|intros _; apply tame_ret].
  apply tame_modify. intros w. apply frame_set_rows.
Qed.

Lemma tame_commit conn : tame (db.commit conn).
Proof.
  unfold db.commit.
  apply tame_bind; [by apply tame_emit | intros _; apply tame_call].
Qed.

Lemma tame_row_get row key : tame (row_get row key).
Proof.
  unfold row_get. destruct row as [r|]; [|by apply tame_raise].
  destruct (r !! key); [apply tame_ret | by apply tame_raise].
Qed.

Lemma not_close_notice_prefix (c : ascii) (s : string) :
  Ascii.eqb c "010" = false -> is_close_notice (EvWrite (String c s)) = false.
Proof. intros Hc. unfold is_close_notice. simpl. by rewrite Hc. Qed.

Lemma tame_init conn : tame (Queries.__init__ conn).
Proof.
  unfold Queries.__init__, Queries.__test, db.cursor.
  apply tame_bind; [apply tame_call | intros _].
  apply tame_try_bind.
  - apply tame_bind; [apply tame_execute | intros _].
    apply tame_bind; [apply tame_fetchone | intros res].
    apply tame_bind; [apply tame_row_get | intros v].
    apply tame_write. by apply not_close_notice_prefix.
  - intros r Hr. apply tame_bind; [by apply tame_resume | intros _].
    apply tame_ret.
Qed.

Lemma tame_select self word : tame (Queries.select self word).
Proof.
  unfold Queries.select.
  apply tame_bind; [apply tame_execute | intros _; apply tame_fetchone].
Qed.

Lemma tame_insert self word : tame (Queries.insert self word).
Proof.
  unfold Queries.insert.
  apply tame_bind; [apply tame_execute | intros _; apply tame_commit].
Qed.

Lemma tame_update self word new_word : tame (Queries.update self word new_word).
Proof.
  unfold Queries.update.
  apply tame_bind; [apply tame_execute | intros _; apply tame_commit].
Qed.

(** *** The prompts and one round of the loop *)

Lemma tame_print_const (s : string) :
  String.eqb (s ++ nl) Connect.closed_notice = false -> tame (print s).
Proof. intros Hs. by apply tame_write. Qed.

Lemma tame_print_prefix (c : ascii) (s : string) :
  Ascii.eqb c "010" = false -> tame (print (String c s)).
Proof. intros Hc. apply tame_write. by apply not_close_notice_prefix. Qed.

Lemma tame_print_suffix (x c : string) :
  has_suffix (c ++ nl) Connect.closed_notice = false -> tame (print (x ++ c)).
Proof.
  intros Hc. apply tame_write. unfold print. rewrite string_app_assoc.
  by apply not_close_notice_suffix.
Qed.

Lemma tame_prompt prompt : tame (Shell._prompt prompt).
Proof.
  unfold Shell._prompt.
  apply tame_bind; [apply tame_input | intros u].
  apply tame_bind.
  - apply tame_with_fuel_while.
    + intros s w. by eexists.
    + intros _. apply tame_bind; [|intros _; apply tame_input].
      by apply tame_print_const.
    + intros _. apply consuming_tame_bind; [by apply tame_print_const|].
      intros _. apply consuming_input.
  - intros u'. destruct (py_in u' Shell.yes_tokens); [apply tame_ret|].
    destruct (py_in u' Shell.no_tokens); apply tame_ret.
Qed.

Lemma tame_run_after_input query term :
  tame (response <- Queries.select query term ;;
        match response with
        | None =>
            addnew <- Shell._prompt ("'" ++ term ++ "' not found. "
                         ++ "Would you like to add it to the dictionary?" ++ nl
                         ++ "[y/n] ") ;;
            if Shell.answered_yes addnew then
              Queries.insert query term ;;;
              print (term ++ " added to the dictionary.")
            else ret tt
        | Some _ =>
            found <- row_get response "word" ;;
            update <- Shell._prompt ("Found: " ++ found ++ ". "
                         ++ "Would you like to update this word?" ++ nl
                         ++ "[y/n] ") ;;
            if Shell.answered_yes update then
              old_word <- row_get response "word" ;;
              new_word <- input ("Update " ++ old_word ++ " as: ") ;;
              Queries.update query old_word new_word ;;;
              print ("Updated " ++ old_word ++ " to " ++ new_word)
            else ret tt
        end).
Proof.
  apply tame_bind; [apply tame_select | intros [row|]].
  - apply tame_bind; [apply tame_row_get | intros found].
    apply tame_bind; [apply tame_prompt | intros update].
    destruct (Shell.answered_yes update); [|apply tame_ret].
    apply tame_bind; [apply tame_row_get | intros old_word].
    apply tame_bind; [apply tame_input | intros new_word].
    apply tame_bind; [apply tame_update | intros _].
    by apply tame_print_prefix.
  - apply tame_bind; [apply tame_prompt | intros addnew].
    destruct (Shell.answered_yes addnew); [|apply tame_ret].
    apply tame_bind; [apply tame_insert | intros _].
    by apply tame_print_suffix.
Qed.

Lemma tame_run query : tame (Shell._run query).
Proof.
  unfold Shell._run.
  apply tame_bind; [apply tame_input | intros term].
  apply tame_run_after_input.
Qed.

Lemma consuming_run query : consuming (Shell._run query).
Proof.
  unfold Shell._run.
  apply consuming_bind_tame; [apply consuming_input | intros term].
  apply tame_run_after_input.
Qed.

(** *** Login and the loop *)

Lemma tame_shell_init : tame Shell._init.
Proof.
  unfold Shell._init.
  apply tame_bind; [by apply tame_print_const | intros _].
  by apply tame_print_const.
Qed.

Lemma tame_login env : tame (Shell.login env).
Proof.
  unfold Shell.login.
  apply tame_bind; [apply tame_gets | intros dbg].
  apply tame_bind; [|intros [[[host port] user] password]; apply tame_ret].
  destruct dbg.
  - unfold Shell.login_prompt. apply tame_try_bind; [|apply @tame_resume].
    apply tame_bind; [apply tame_input | intros _host].
    apply tame_bind; [apply tame_input | intros _port].
    apply tame_bind; [apply tame_input | intros _user].
    apply tame_bind; [apply tame_input | intros _pass].
    apply tame_ret.
  - unfold Shell.auto_login. apply tame_try_bind; [|apply @tame_resume].
    apply tame_bind; [by apply tame_print_prefix | intros _].
    apply tame_bind; [by apply tame_print_prefix | intros _].
    apply tame_bind; [by apply tame_print_prefix | intros _].
    apply tame_bind; [apply tame_getpass | intros _pass].
    apply tame_ret.
Qed.

Lemma frame0_set_running w b : frame0 w (set_running w b).
Proof. destruct w. repeat split; try done. exists []. by rewrite app_nil_r. Qed.

Lemma running_set_running w b : running (set_running w b) = b.
Proof. by destruct w. Qed.

(** The loop ends, and it ends by an exception: it returns only when
    [__running] is false, and only the handler that re-raises sets it so. *)
Lemma main_loop_raises sql w :
  running w = true ->
  exists e w',
    Shell.main_loop sql w = Some (Raise e, w') /\ frame0 w w' /\
    forall code, e <> SystemExit code.
Proof.
  unfold Shell.main_loop, with_fuel.
  assert (Hlt : (length (stdin w) < S (length (stdin w)))%nat) by lia.
  revert Hlt. generalize (S (length (stdin w))) as fuel. intros fuel.
  revert w. induction fuel as [|fuel IH]; intros w Hfuel Hrun; [lia|].
  rewrite while_S.
  rewrite (bind_Ret _ _ w w true) by (unfold gets; by rewrite Hrun).
  destruct (tame_run sql w) as (r & w1 & E & [F1 R1] & Hok).
  destruct r as [[]|e].
  - rewrite (bind_Ret _ _ w w1 tt) by (unfold bind, try_; by rewrite E).
    pose proof (consuming_run sql w tt w1 E) as Hlt.
    destruct (IH w1) as (e & w2 & E2 & F2 & He); [lia | congruence |].
    exists e, w2. split; [done|]. split; [by eapply frame0_trans | done].
  - rewrite (bind_Raise _ _ w (set_running w1 false) e)
      by (unfold bind, try_, modify, raise; by rewrite E).
    exists e, (set_running w1 false). split; [done|].
    split; [eapply frame0_trans; [done | apply frame0_set_running]|].
    intros code ->. by eapply Hok.
Qed.

(** What [run] does inside the [with] statement. *)
Lemma scope_body_raises conn w :
  exists e w',
    (sql <- Queries.__init__ conn ;;
     modify (fun w => set_running w true) ;;;
     Shell.main_loop sql) w = Some (Raise e, w') /\
    frame0 w w' /\ forall code, e <> SystemExit code.
Proof.
  destruct (tame_init conn w) as (r & w1 & E & [F1 _] & Hok).
  destruct r as [sql|e].
  - rewrite (bind_Ret _ _ _ _ _ E).
    rewrite (bind_Ret _ _ w1 (set_running w1 true) tt) by done.
    destruct (main_loop_raises sql (set_running w1 true)) as (e & w2 & E2 & F2 & He);
      [apply running_set_running|].
    exists e, w2. split; [done|]. split; [|done].
    eapply frame0_trans; [done|].
    eapply frame0_trans; [apply frame0_set_running | done].
  - rewrite (bind_Raise _ _ _ _ _ E). exists e, w1.
    split; [done|]. split; [done|]. intros code ->. by eapply Hok.
Qed.

(** *** The connection scope *)

Lemma enter_connected creds w :
  server w creds = None ->
  Connect.__enter__ creds w
  = Some (Ret db.Conn,
          add_events w [EvConnect creds; EvWrite Connect.connected_notice]).
Proof.
  destruct w as [dbg sin srv ver tbl rws fts run evs]. simpl. intros Hsrv.
  unfold Connect.__enter__, db.connect, bind, try_, write, emit, modify, gets.
  simpl. rewrite Hsrv. simpl. by rewrite <- app_assoc.
Qed.

Lemma enter_refused creds w f :
  server w creds = Some f ->
  exists e,
    Connect.__enter__ creds w = Some (Raise e, add_event w (EvConnect creds)) /\
    forall code, e <> SystemExit code.
Proof.
  destruct w as [dbg sin srv ver tbl rws fts run evs]. simpl. intros Hsrv.
  unfold Connect.__enter__, db.connect, bind, try_, write, emit, modify, gets.
  simpl. rewrite Hsrv. destruct f as [err|]; simpl.
  - eexists. split; [done|]. intros code. unfold Connect.classify.
    by repeat case_match.
  - eexists. split; [done|]. done.
Qed.

(** Leaving the [with] statement: [__exit__] runs once, whatever the
    body did and however it ended. *)
Lemma with_exit {A} creds (body : db.connection -> M A) w conn w1 r w2 :
  Connect.__enter__ creds w = Some (Ret conn, w1) ->
  body conn w1 = Some (r, w2) ->
  Connect.with_ creds body w
  = Some (r, add_events w2 [EvClose; EvWrite Connect.closed_notice]).
Proof.
  intros Henter Hbody. unfold Connect.with_.
  rewrite (bind_Ret _ _ _ _ _ Henter).
  rewrite (bind_Ret _ _ w1 w2 r) by (unfold try_; by rewrite Hbody).
  destruct w2 as [dbg sin srv ver tbl rws fts run evs].
  unfold Connect.__exit__, db.close, write, emit, modify, bind.
  simpl. rewrite <- app_assoc. by destruct r.
Qed.

(** *** Counting in the record *)

Lemma closes_app a b : closes (a ++ b) = (closes a + closes b)%nat.
Proof. unfold closes. by rewrite List.filter_app, length_app. Qed.

Lemma close_notices_app a b :
  close_notices (a ++ b) = (close_notices a + close_notices b)%nat.
Proof. unfold close_notices. by rewrite List.filter_app, length_app. Qed.

Lemma connects_app a b : connects (a ++ b) = (connects a ++ connects b)%list.
Proof. unfold connects. apply omap_app. Qed.

Lemma quiet_counts evs :
  Forall quiet evs ->
  closes evs = 0%nat /\ close_notices evs = 0%nat /\ connects evs = [].
Proof.
  induction 1 as [|ev evs (Hc & Hn & Hk) _ (IH1 & IH2 & IH3)]; [done|].
  unfold closes, close_notices, connects in *. simpl.
  rewrite Hc, Hn, IH1, IH2. repeat split; try done.
  destruct ev; simpl in *; try done.
Qed.

Lemma events_add_event w ev : events (add_event w ev) = (events w ++ [ev])%list.
Proof. by destruct w. Qed.

Lemma events_add_events w evs : events (add_events w evs) = (events w ++ evs)%list.
Proof. by destruct w. Qed.

Lemma exit_message_quiet (x : string) :
  is_close_notice (EvWrite ((x ++ nl ++ "Exiting.") ++ nl)) = false.
Proof.
  rewrite string_app_assoc. by apply not_close_notice_suffix.
Qed.

(** What the [try] block of [run] leaves in the record: it always ends by
    an exception other than [SystemExit], and the connection, if one was
    opened, has been closed once, last of all. *)
Lemma run_try_spec env w :
  exists e w' evs,
    Shell.run_try env w = Some (Raise e, w') /\
    (forall code, e <> SystemExit code) /\
    events w' = (events w ++ evs)%list /\
    match connects evs with
    | [] => closes evs = 0%nat /\ close_notices evs = 0%nat
    | [creds] =>
        match server w creds with
        | Some _ => closes evs = 0%nat /\ close_notices evs = 0%nat
        | None =>
            closes evs = 1%nat /\ close_notices evs = 1%nat /\
            exists before,
              evs = (before ++ [EvClose; EvWrite Connect.closed_notice])%list
        end
    | _ => False
    end.
Proof.
  unfold Shell.run_try.
  destruct (tame_shell_init w) as (r0 & w0 & E0 & [F0 _] & Hok0).
  destruct r0 as [[]|e]; cycle 1.
  { rewrite (bind_Raise _ _ _ _ _ E0).
    destruct F0 as (_ & _ & _ & evs & Hev & Hq).
    destruct (quiet_counts evs Hq) as (H1 & H2 & H3).
    exists e, w0, evs. split; [done|].
    split; [intros code ->; by eapply Hok0|]. split; [done|]. by rewrite H3. }
  rewrite (bind_Ret _ _ _ _ _ E0).
  destruct (tame_login env w0) as (r1 & w1 & E1 & [F1 _] & Hok1).
  pose proof (frame0_trans _ _ _ F0 F1) as F01. clear F0 F1.
  destruct F01 as (_ & Hsrv & _ & evs1 & Hev1 & Hq1).
  destruct (quiet_counts evs1 Hq1) as (Hc1 & Hn1 & Hk1).
  destruct r1 as [creds|e]; cycle 1.
  { rewrite (bind_Raise _ _ _ _ _ E1).
    exists e, w1, evs1. split; [done|].
    split; [intros code ->; by eapply Hok1|]. split; [done|]. by rewrite Hk1. }
  rewrite (bind_Ret _ _ _ _ _ E1).
  destruct (server w1 creds) as [f|] eqn:Esrv.
  - destruct (enter_refused creds w1 f Esrv) as (e & Henter & He).
    unfold Connect.with_. rewrite (bind_Raise _ _ _ _ _ Henter).
    exists e, (add_event w1 (EvConnect creds)), (evs1 ++ [EvConnect creds])%list.
    split; [done|]. split; [done|].
    split; [by rewrite events_add_event, Hev1, app_assoc|].
    rewrite closes_app, close_notices_app, Hc1, Hn1.
    rewrite connects_app, Hk1. simpl. by rewrite <- Hsrv, Esrv.
  - pose proof (enter_connected creds w1 Esrv) as Henter.
    set (w2 := add_events w1 [EvConnect creds; EvWrite Connect.connected_notice])
      in Henter.
    destruct (scope_body_raises db.Conn w2) as (e & w3 & Ebody & F3 & He).
    rewrite (with_exit creds _ w1 db.Conn w2 (Raise e) w3 Henter Ebody).
    destruct F3 as (_ & _ & _ & evs3 & Hev3 & Hq3).
    destruct (quiet_counts evs3 Hq3) as (Hc3 & Hn3 & Hk3).
    exists e, (add_events w3 [EvClose; EvWrite Connect.closed_notice]),
      (evs1 ++ [EvConnect creds; EvWrite Connect.connected_notice] ++ evs3
       ++ [EvClose; EvWrite Connect.closed_notice])%list.
    split; [done|]. split; [done|]. split.
    { rewrite events_add_events, Hev3. subst w2.
      rewrite events_add_events, Hev1. by rewrite <- !app_assoc. }
    rewrite !closes_app, !close_notices_app, Hc1, Hn1, Hc3, Hn3.
    rewrite !connects_app, Hk1, Hk3. simpl. rewrite <- Hsrv, Esrv.
    split; [done|]. split; [done|].
    exists (evs1 ++ [EvConnect creds; EvWrite Connect.connected_notice] ++ evs3)%list.
    by rewrite <- !app_assoc.
Qed.

Lemma exit_spec e code w :
  Shell._exit e code w
  = Some (Raise (SystemExit code),
          add_event w (EvWrite ((str_exn e ++ nl ++ "Exiting.") ++ nl))).
Proof. by destruct w. Qed.

Lemma run_spec env w e w' :
  Shell.run_try env w = Some (Raise e, w') ->
  (forall code, e <> SystemExit code) ->
  Shell.run env w
  = Some (Raise (SystemExit (if is_IncorrectLogin e || is_KeyboardInterrupt e
                             then 0 else 1)),
          add_event w' (EvWrite ((str_exn e ++ nl ++ "Exiting.") ++ nl))).
Proof.
  intros Htry He. unfold Shell.run.
  rewrite (bind_Ret _ _ w w' (Raise e)) by (unfold try_; by rewrite Htry).
  unfold Shell.run_except.
  destruct e; simpl; try apply exit_spec. by destruct (He code).
Qed.

Lemma counts_with_exit evs x :
  connects (evs ++ [EvWrite ((x ++ nl ++ "Exiting.") ++ nl)]) = connects evs /\
  closes (evs ++ [EvWrite ((x ++ nl ++ "Exiting.") ++ nl)]) = closes evs /\
  close_notices (evs ++ [EvWrite ((x ++ nl ++ "Exiting.") ++ nl)])
  = close_notices evs.
Proof.
  rewrite connects_app, closes_app, close_notices_app.
  unfold close_notices at 2. cbn [List.filter].
  rewrite exit_message_quiet. simpl. rewrite app_nil_r.
  split; [done|]. split; [|lia].
  change (closes [EvWrite ((x ++ nl ++ "Exiting.") ++ nl)]) with 0%nat. lia.
Qed.

(** ** The claims about the run *)

(** C2.  Leaving the connection scope runs [__exit__] exactly once,
    whatever the body did and however it ended (by returning, by an
    exception of a query, by the user's interrupt): the connection is
    closed and the close notice printed, once each, after the body.  And
    in every run of the program the record shows, when a connection was
    opened, exactly one close and exactly one close notice, placed after
    all work on the connection and before the exit message; and none of
    either when no connection was opened. *)
Theorem C2_connection_closed_once :
  (forall (A : Type) (creds : gmap string value) (body : db.connection -> M A)
          (w w1 w2 : world) (conn : db.connection) (r : result A),
     Connect.__enter__ creds w = Some (Ret conn, w1) ->
     body conn w1 = Some (r, w2) ->
     Connect.with_ creds body w
     = Some (r, add_events w2 [EvClose; EvWrite Connect.closed_notice])) /\
  (forall (env : gmap string value) (w : world),
     exists r w' evs,
       Shell.run env w = Some (r, w') /\
       events w' = (events w ++ evs)%list /\
       released (server w) evs).
Proof.
  split.
  - intros A creds body w w1 w2 conn r. apply with_exit.
  - intros env w.
    destruct (run_try_spec env w) as (e & w' & evs & Htry & He & Hev & Hrec).
    eexists _, _, (evs ++ [EvWrite ((str_exn e ++ nl ++ "Exiting.") ++ nl)])%list.
    split; [by apply run_spec|].
    split; [by rewrite events_add_event, Hev, app_assoc|].
    unfold released.
    destruct (counts_with_exit evs (str_exn e)) as (-> & -> & ->).
    destruct (connects evs) as [|creds [|? ?]]; [done | | done].
    destruct (server w creds); [done|].
    destruct Hrec as (Hc & Hn & before & ->).
    split; [done|]. split; [done|].
    exists before, ((str_exn e ++ nl ++ "Exiting.") ++ nl).
    by rewrite <- app_assoc.
Qed.

(** C4.  Every run ends by [exit]: the [try] block of [run] always ends
    with an exception, and the exit code is 0 when that exception is the
    user's interrupt or [IncorrectLogin], and 1 for every other one. *)
Theorem C4_exit_codes (env : gmap string value) (w : world) :
  exists e w1 code w2,
    Shell.run_try env w = Some (Raise e, w1) /\
    Shell.run env w = Some (Raise (SystemExit code), w2) /\
    (e = KeyboardInterrupt \/ (exists err message, e = IncorrectLogin err message) ->
     code = 0) /\
    (e <> KeyboardInterrupt /\ (forall err message, e <> IncorrectLogin err message) ->
     code = 1).
Proof.
  destruct (run_try_spec env w) as (e & w' & evs & Htry & He & _).
  eexists e, w', _, _. split; [done|]. split; [by apply run_spec|]. split.
  - intros [-> | (err & message & ->)]; done.
  - intros [H1 H2]. destruct e; try done. by destruct (H2 e message).
Qed.

(** C2 on a lookup during which the connection is lost. *)
Lemma C2_witness :
  exists w2,
    Connect.with_ ∅
      (fun conn => Queries.select (Queries.mk conn) "foo")
      (set_faults (quiet_world [] ["foo"]) [Some (FError lost_connection)])
    = Some (Raise (MySQLError lost_connection),
            add_events w2 [EvClose; EvWrite Connect.closed_notice]).
Proof.
  eexists.
  eapply (proj1 C2_connection_closed_once).
  - apply enter_connected. reflexivity.
  - reflexivity.
Defined.

(** Four runs: a refused password, an interrupt at the first prompt of
    the loop, a connection lost during the first lookup, and the end of
    the console's input. *)
Example run_refused_password :
  outcome (Shell.run ∅)
    (refusing_world [Line "localhost"; Line "3306"; Line "root"; Line "x"])
  = Some (Raise (SystemExit 0)).
Proof. vm_compute. exact eq_refl. Qed.

Example run_interrupted :
  outcome (Shell.run ∅)
    (quiet_world [Line "localhost"; Line "3306"; Line "root"; Line "x"; CtrlC] [])
  = Some (Raise (SystemExit 0)).
Proof. vm_compute. exact eq_refl. Qed.

Example run_lost_connection :
  outcome (Shell.run ∅)
    (set_faults
       (quiet_world [Line "localhost"; Line "3306"; Line "root"; Line "x";
                     Line "foo"] [])
       [None; None; None; Some (FError lost_connection)])
  = Some (Raise (SystemExit 1)).
Proof. vm_compute. exact eq_refl. Qed.

Example run_end_of_input :
  outcome (Shell.run ∅)
    (quiet_world [Line "localhost"; Line "3306"; Line "root"; Line "x";
                  Line "foo"; Line "n"] [])
  = Some (Raise (SystemExit 1)).
Proof. vm_compute. exact eq_refl. Qed.

(** * Further properties *)

(** ** Queries: delete, and the commit after a write *)

Lemma delete_absent (tbl : list string) (word : string) :
  word ∉ List.filter (fun r => negb (String.eqb r word)) tbl.
Proof.
  intros Hin. apply list_elem_of_In, filter_In in Hin as [_ Hin].
  by rewrite String.eqb_refl in Hin.
Qed.

Lemma delete_others (tbl : list string) (word other : string) :
  other <> word ->
  (other ∈ List.filter (fun r => negb (String.eqb r word)) tbl <-> other ∈ tbl).
Proof.
  intros Hne. rewrite !list_elem_of_In, filter_In. split; [tauto|].
  intros Hin. split; [done|]. by destruct (String.eqb_spec other word).
Qed.

Lemma delete_nothing (tbl : list string) (word : string) :
  word ∉ tbl -> List.filter (fun r => negb (String.eqb r word)) tbl = tbl.
Proof.
  induction tbl as [|r tbl IH]; intros Hnin; [done|]. simpl.
  destruct (String.eqb_spec r word) as [->|Hne]; simpl.
  - exfalso. apply Hnin. by left.
  - f_equal. apply IH. intros Hin. apply Hnin. by right.
Qed.

(** X1.  With a driver that does not fail, [delete(word)] removes every
    row holding [word] and no other: afterwards the word is not in the
    table and its lookup returns nothing, every other word is in the table
    exactly when it was before, and a table that did not hold the word is
    unchanged.  So [insert(word)] followed by [delete(word)] gives back a
    table that did not hold the word. *)
Theorem X1_delete_removes_word (self : Queries.t) (w : world) (word : string) :
  faults w = [] ->
  (exists w',
     Queries.delete self word w = Some (Ret tt, w') /\
     (word ∉ table w') /\
     (forall other, other <> word -> (other ∈ table w' <-> other ∈ table w)) /\
     outcome (Queries.select self word) w' = Some (Ret None) /\
     (word ∉ table w -> table w' = table w)) /\
  (word ∉ table w ->
   exists w',
     (Queries.insert self word ;;; Queries.delete self word) w
     = Some (Ret tt, w') /\
     table w' = table w).
Proof.
  destruct w as [dbg sin srv ver tbl rws fts run evs]. simpl. intros ->.
  split.
  - eexists. split; [run_queries; reflexivity|]. simpl.
    split; [apply delete_absent|]. split; [intros other; apply delete_others|].
    split; [|apply delete_nothing].
    unfold outcome. run_queries.
    by rewrite (select_absent _ word (delete_absent tbl word)).
  - intros Hnin. eexists. split; [run_queries; reflexivity|]. simpl.
    rewrite List.filter_app. simpl. rewrite String.eqb_refl. simpl.
    by rewrite app_nil_r, delete_nothing.
Qed.

(** X1 on a table with two rows for the word. *)
Lemma X1_witness :
  (exists w',
     Queries.delete (Queries.mk db.Conn) "foo" (quiet_world [] ["foo"; "bar"; "foo"])
     = Some (Ret tt, w') /\
     ("foo" ∉ table w') /\
     (forall other, other <> "foo" ->
        (other ∈ table w' <-> other ∈ ["foo"; "bar"; "foo"])) /\
     outcome (Queries.select (Queries.mk db.Conn) "foo") w' = Some (Ret None) /\
     ("foo" ∉ ["foo"; "bar"; "foo"] -> table w' = ["foo"; "bar"; "foo"])).
Proof.
  exact (proj1 (X1_delete_removes_word (Queries.mk db.Conn)
                  (quiet_world [] ["foo"; "bar"; "foo"]) "foo" eq_refl)).
Defined.

Lemma write_commits_after (conn : db.connection) (st : statement) :
  commits_after (db.execute st ;;; db.commit conn) st.
Proof.
  intros [dbg sin srv ver tbl rws fts run evs]. unfold fault_at. simpl.
  unfold db.execute, db.commit, db.call, emit, modify, bind. simpl.
  destruct fts as [|[f0|] [|[f1|] rest]]; simpl;
    destruct (db.run_statement ver st tbl) as [t r]; simpl.
  all: repeat split; try (intros; discriminate).
  all: try (intros f [= <-]); try (intros f _ [= <-]); try intros _ _.
  all: eexists; (split; [reflexivity|]); simpl; rewrite <- ?app_assoc; done.
Qed.

(** X2.  [insert], [update] and [delete] hand their statement to the
    cursor and then ask for the commit, once; when the statement raises,
    no commit is asked for and the table is as before; [select] asks for
    no commit and leaves the table as it is. *)
Theorem X2_writes_commit_once (self : Queries.t) (word new_word : string) :
  commits_after (Queries.insert self new_word) (Insert new_word) /\
  commits_after (Queries.update self word new_word) (Update word new_word) /\
  commits_after (Queries.delete self word) (Delete word) /\
  (forall w, exists r w',
     Queries.select self word w = Some (r, w') /\
     events w' = (events w ++ [EvExecute (Select word)])%list /\
     table w' = table w).
Proof.
  split; [apply write_commits_after|]. split; [apply write_commits_after|].
  split; [apply write_commits_after|].
  intros [dbg sin srv ver tbl rws fts run evs].
  destruct fts as [|[f0|] [|[f1|] rest]];
    unfold Queries.select, db.execute, db.fetchone, db.call, emit, modify, gets,
      bind, ret; simpl;
    try (destruct (map db.word_row _)); simpl; eauto.
Qed.

(** X2 on an insert whose statement loses the connection. *)
Lemma X2_witness :
  exists w',
    Queries.insert (Queries.mk db.Conn) "foo"
      (set_faults (quiet_world [] ["bar"]) [Some (FError lost_connection)])
    = Some (Raise (MySQLError lost_connection), w') /\
    events w' = [EvExecute (Insert "foo")] /\
    table w' = ["bar"].
Proof.
  exact (proj1 (proj2 (proj1 (X2_writes_commit_once (Queries.mk db.Conn) "" "foo")
           (set_faults (quiet_world [] ["bar"]) [Some (FError lost_connection)])))
           (FError lost_connection) eq_refl).
Defined.

(** ** Shell: login *)

Lemma login_asks env host port user password rest srv ver tbl rws fts run evs :
  Shell.login env
    (mkWorld true (Line host :: Line port :: Line user :: Line password :: rest)
             srv ver tbl rws fts run evs)
  = Some (Ret {[ "host" := VStr host; "port" := VStr port;
                 "user" := VStr user; "password" := VStr password;
                 "database" := get_or env "database" (VStr "dictionary");
                 "auth_plugin" :=
                   get_or env "auth_plugin" (VStr "caching_sha2_password") ]},
          mkWorld true rest srv ver tbl rws fts run
            (evs ++ map EvPrompt login_questions)).
Proof.
  unfold Shell.login, Shell.login_prompt.
  unfold bind, try_, resume, gets, ret, input, emit, modify, read_line.
  simpl. rewrite <- !app_assoc. reflexivity.
Qed.

(** X3.  With [__debug__] on, [login] asks four questions and the
    credentials hold the four answers as typed, the port as a string; only
    the database and the authentication plugin come from the resolved
    configuration, with ['dictionary'] and ['caching_sha2_password'] when
    it lacks them.  Host, port, user and password of the configuration
    have no part in it: two configurations with the same database and
    plugin entries give the same login in every world. *)
Theorem X3_login_asks_for_credentials (env : gmap string value) (w : world) :
  debug w = true ->
  (forall host port user password rest,
     stdin w = Line host :: Line port :: Line user :: Line password :: rest ->
     Shell.login env w
     = Some (Ret {[ "host" := VStr host; "port" := VStr port;
                    "user" := VStr user; "password" := VStr password;
                    "database" := get_or env "database" (VStr "dictionary");
                    "auth_plugin" :=
                      get_or env "auth_plugin" (VStr "caching_sha2_password") ]},
             set_stdin
               (add_events w
                  [EvPrompt "What host to connect to (localhost): ";
                   EvPrompt "What port to connect to (3306): ";
                   EvPrompt "What user to connect to (root): ";
                   EvPrompt "What password to connect with: "])
               rest)) /\
  (forall env',
     env' !! "database" = env !! "database" ->
     env' !! "auth_plugin" = env !! "auth_plugin" ->
     Shell.login env' w = Shell.login env w).
Proof.
  destruct w as [dbg sin srv ver tbl rws fts run evs]. simpl. intros ->.
  split.
  - intros host port user password rest ->. apply login_asks.
  - intros env' Hd Ha. unfold Shell.login, get_or. rewrite Hd, Ha.
    reflexivity.
Qed.

(** X3 on a configuration without entries. *)
Lemma X3_witness :
  Shell.login ∅
    (quiet_world [Line "db.example"; Line "3307"; Line "alice"; Line "secret"] [])
  = Some (Ret {[ "host" := VStr "db.example"; "port" := VStr "3307";
                 "user" := VStr "alice"; "password" := VStr "secret";
                 "database" := VStr "dictionary";
                 "auth_plugin" := VStr "caching_sha2_password" ]},
          add_events (quiet_world [] [])
            [EvPrompt "What host to connect to (localhost): ";
             EvPrompt "What port to connect to (3306): ";
             EvPrompt "What user to connect to (root): ";
             EvPrompt "What password to connect with: "]).
Proof.
  exact (proj1 (X3_login_asks_for_credentials ∅
                  (quiet_world [Line "db.example"; Line "3307"; Line "alice";
                                Line "secret"] []) eq_refl)
           "db.example" "3307" "alice" "secret" [] eq_refl).
Defined.

(** X4.  With [__debug__] off ([python -O]), [login] takes host, port and
    user from the resolved configuration, prints them as if they had been
    typed, and asks for the password only. *)
Theorem X4_login_from_configuration (env : gmap string value) (w : world)
    (password : string) (rest : list inp) :
  debug w = false ->
  stdin w = Line password :: rest ->
  Shell.login env w
  = Some (Ret {[ "host" := get env "host"; "port" := get env "port";
                 "user" := get env "user"; "password" := VStr password;
                 "database" := get_or env "database" (VStr "dictionary");
                 "auth_plugin" :=
                   get_or env "auth_plugin" (VStr "caching_sha2_password") ]},
          set_stdin
            (add_events w
               [EvWrite ("What host to connect to (localhost): "
                         ++ str (get env "host") ++ nl);
                EvWrite ("What port to connect to (3306): "
                         ++ str (get env "port") ++ nl);
                EvWrite ("What user to connect to (root): "
                         ++ str (get env "user") ++ nl);
                EvPrompt "What password to connect with: "])
            rest).
Proof.
  destruct w as [dbg sin srv ver tbl rws fts run evs]. simpl. intros -> ->.
  unfold Shell.login, Shell.auto_login.
  unfold bind, try_, resume, gets, ret, getpass, print, write, emit, modify,
    read_line.
  simpl. rewrite <- !app_assoc.
  rewrite !string_app_assoc. reflexivity.
Qed.

(** X4 on the default parameter set. *)
Lemma X4_witness :
  exists w',
    Shell.login default_params
      (mkWorld false [Line "secret"] (fun _ => None) "8.0.30" [] [] [] false [])
    = Some (Ret {[ "host" := VStr "localhost"; "port" := VInt 3306;
                   "user" := VStr "root"; "password" := VStr "secret";
                   "database" := VStr "dictionary";
                   "auth_plugin" := VStr "caching_sha2_password" ]}, w').
Proof.
  eexists.
  exact (X4_login_from_configuration default_params
           (mkWorld false [Line "secret"] (fun _ => None) "8.0.30" [] [] [] false [])
           "secret" [] eq_refl eq_refl).
Defined.

(** ** Shell: what the yes/no prompt never does *)

Lemma while_exit_cond {S} (c : S -> bool) (body : S -> M S) (fuel : nat) :
  forall s w s' w',
    while fuel (fun u => ret (c u)) body s w = Some (Ret s', w') ->
    c s' = false.
Proof.
  induction fuel as [|fuel IH]; intros s w s' w'; [done|].
  rewrite while_S. unfold bind at 1, ret at 1.
  destruct (c s) eqn:Hc.
  - unfold bind. destruct (body s w) as [[[s1|e] w1]|]; [|done|done].
    apply IH.
  - unfold ret. intros [= <- <-]. done.
Qed.

Lemma tokens_yes_or_no (u : string) :
  py_in u Shell.tokens = py_in u Shell.yes_tokens || py_in u Shell.no_tokens.
Proof.
  unfold py_in.
  change Shell.tokens with (Shell.yes_tokens ++ Shell.no_tokens)%list.
  apply existsb_app.
Qed.

Lemma consuming_prompt (prompt : string) : consuming (Shell._prompt prompt).
Proof.
  unfold Shell._prompt.
  apply consuming_bind_tame; [apply consuming_input | intros u].
  apply tame_bind.
  - apply tame_with_fuel_while.
    + intros s w. by eexists.
    + intros _. apply tame_bind; [|intros _; apply tame_input].
      by apply tame_print_const.
    + intros _. apply consuming_tame_bind; [by apply tame_print_const|].
      intros _. apply consuming_input.
  - intros u'. destruct (py_in u' Shell.yes_tokens); [apply tame_ret|].
    destruct (py_in u' Shell.no_tokens); apply tame_ret.
Qed.

(** X5.  Whenever [_prompt] returns, it returns [True] or [False], never
    the [None] of falling off its end, and it has read at least one
    answer: the loop is left only on one of the eight tokens, each of
    which one of the two tests takes. *)
Theorem X5_prompt_returns_a_boolean (prompt : string) (w w' : world)
    (r : option bool) :
  Shell._prompt prompt w = Some (Ret r, w') ->
  (r = Some true \/ r = Some false) /\
  (length (stdin w') < length (stdin w))%nat.
Proof.
  intros Hrun. split; [|by apply (consuming_prompt prompt w r w')].
  unfold Shell._prompt in Hrun. unfold bind at 1 in Hrun.
  destruct (input prompt w) as [[[u|e] w1]|]; [|done|done].
  unfold bind at 1 in Hrun. unfold with_fuel in Hrun.
  destruct (while _ _ _ u w1) as [[[u'|e] w2]|] eqn:Hloop; [|done|done].
  apply (while_exit_cond (fun u => negb (py_in u Shell.tokens))) in Hloop.
  apply negb_false_iff in Hloop. rewrite tokens_yes_or_no in Hloop.
  destruct (py_in u' Shell.yes_tokens); [left | right].
  - by injection Hrun as <- _.
  - rewrite orb_false_l in Hloop. rewrite Hloop in Hrun.
    by injection Hrun as <- _.
Qed.

(** X5 on the answer [N]. *)
Lemma X5_witness :
  (Some false = Some true \/ Some false = Some false) /\
  (length (@nil inp) < length [Line "N"])%nat.
Proof.
  exact (X5_prompt_returns_a_boolean "Add it? [y/n] "
           (quiet_world [Line "N"] [])
           (add_event (quiet_world [] []) (EvPrompt "Add it? [y/n] "))
           (Some false) eq_refl).
Defined.

(** The [while] of [_prompt] when the answers left are all invalid. *)
Lemma prompt_loop_exhausted (prompt : string) (tail : list inp) (e : exn)
    (after : list inp) :
  (forall dbg srv ver tbl rws fts run evs,
     read_line "EOF when reading a line" (mkWorld dbg tail srv ver tbl rws fts run evs)
     = Some (Raise e, mkWorld dbg after srv ver tbl rws fts run evs)) ->
  forall more u fuel dbg srv ver tbl rws fts run evs,
    Forall (fun t => py_in t Shell.tokens = false) (u :: more) ->
    (length more < fuel)%nat ->
    while fuel
      (fun user_input => ret (negb (py_in user_input Shell.tokens)))
      (fun _ => print Shell.reprompt ;;; input prompt)
      u
      (mkWorld dbg (map Line more ++ tail) srv ver tbl rws fts run evs)
    = Some (Raise e,
            mkWorld dbg after srv ver tbl rws fts run
              (evs ++ concat (map (fun _ => asked_again prompt) (u :: more)))).
Proof.
  intros Htail more.
  induction more as [|t more IH];
    intros u fuel dbg srv ver tbl rws fts run evs Hinv Hfuel;
    (destruct fuel as [|fuel]; [simpl in Hfuel; lia|]);
    apply Forall_cons in Hinv as [Hu Hinv];
    rewrite while_S; unfold bind at 1, ret at 1; rewrite Hu; cbv [negb].
  - erewrite bind_Raise; [reflexivity|].
    unfold print, write, input, emit, modify, bind. cbv [add_event].
    simpl map. rewrite app_nil_l, Htail. simpl.
    by rewrite <- !app_assoc.
  - unfold bind at 1. run_console.
    change (map Line (t :: more) ++ tail)%list
      with (Line t :: (map Line more ++ tail))%list.
    cbv iota beta.
    rewrite (IH t fuel); [|done | simpl in Hfuel; lia].
    do 3 f_equal. simpl. by rewrite <- !app_assoc.
Qed.

Lemma read_line_end dbg srv ver tbl rws fts run evs :
  read_line "EOF when reading a line" (mkWorld dbg [] srv ver tbl rws fts run evs)
  = Some (Raise (EOFError "EOF when reading a line"), mkWorld dbg [] srv ver tbl rws fts run evs).
Proof. reflexivity. Qed.

Lemma read_line_interrupt rest dbg srv ver tbl rws fts run evs :
  read_line "EOF when reading a line" (mkWorld dbg (CtrlC :: rest) srv ver tbl rws fts run evs)
  = Some (Raise KeyboardInterrupt, mkWorld dbg rest srv ver tbl rws fts run evs).
Proof. reflexivity. Qed.

Lemma prompt_exhausted (prompt : string) (tail : list inp) (e : exn)
    (after : list inp) (invalids : list string) (w : world) :
  (forall dbg srv ver tbl rws fts run evs,
     read_line "EOF when reading a line" (mkWorld dbg tail srv ver tbl rws fts run evs)
     = Some (Raise e, mkWorld dbg after srv ver tbl rws fts run evs)) ->
  stdin w = (map Line invalids ++ tail)%list ->
  Forall (fun t => py_in t Shell.tokens = false) invalids ->
  Shell._prompt prompt w
  = Some (Raise e,
          set_stdin
            (add_events w (EvPrompt prompt
                           :: concat (map (fun _ => asked_again prompt) invalids)))
            after).
Proof.
  intros Htail. destruct w as [dbg sin srv ver tbl rws fts run evs].
  cbv [stdin]. intros -> Hinv. unfold Shell._prompt.
  destruct invalids as [|u more].
  - erewrite bind_Raise; [reflexivity|].
    unfold input, emit, modify, bind. cbv [add_event]. simpl map.
    rewrite app_nil_l, Htail. reflexivity.
  - change (map Line (u :: more) ++ tail)%list
      with (Line u :: (map Line more ++ tail))%list.
    erewrite bind_Ret by apply input_line.
    erewrite bind_Raise.
    2:{ unfold with_fuel. cbv [stdin].
        apply (prompt_loop_exhausted prompt tail e after Htail more u);
          [done|]. rewrite length_app, length_map. lia. }
    by rewrite <- app_assoc.
Qed.

(** X6.  When the answers are invalid tokens and then the console ends or
    the user interrupts, [_prompt] does not return: it raises the
    [EOFError] of [input], respectively [KeyboardInterrupt], having shown the prompt once and the
    re-prompt message with the prompt once more per invalid token. *)
Theorem X6_prompt_without_valid_answer (prompt : string) (w : world)
    (invalids : list string) :
  Forall (fun t => t ∉ ["y"; "Y"; "yes"; "Yes"; "n"; "N"; "no"; "No"]) invalids ->
  let shown :=
    EvPrompt prompt
    :: concat (map (fun _ => [EvWrite (Shell.reprompt ++ nl); EvPrompt prompt])
                   invalids) in
  (stdin w = map Line invalids ->
   Shell._prompt prompt w
   = Some (Raise (EOFError "EOF when reading a line"), set_stdin (add_events w shown) [])) /\
  (forall rest,
     stdin w = (map Line invalids ++ CtrlC :: rest)%list ->
     Shell._prompt prompt w
     = Some (Raise KeyboardInterrupt, set_stdin (add_events w shown) rest)).
Proof.
  intros Hinv shown.
  assert (Hinv' : Forall (fun t => py_in t Shell.tokens = false) invalids).
  { eapply Forall_impl; [exact Hinv|]. intros t Ht. by apply py_in_false. }
  split.
  - intros Hsin.
    apply (prompt_exhausted prompt [] (EOFError "EOF when reading a line") [] invalids w read_line_end);
      [by rewrite app_nil_r | done].
  - intros rest Hsin.
    by apply (prompt_exhausted prompt (CtrlC :: rest) KeyboardInterrupt rest
                invalids w (read_line_interrupt rest)).
Qed.

(** X6 on the answers [maybe], CTRL+C. *)
Lemma X6_witness :
  Shell._prompt "Add it? [y/n] " (quiet_world [Line "maybe"; CtrlC; Line "y"] [])
  = Some (Raise KeyboardInterrupt,
          set_stdin
            (add_events (quiet_world [Line "maybe"; CtrlC; Line "y"] [])
               [EvPrompt "Add it? [y/n] ";
                EvWrite (Shell.reprompt ++ nl); EvPrompt "Add it? [y/n] "])
            [Line "y"]).
Proof.
  refine (proj2 (X6_prompt_without_valid_answer "Add it? [y/n] "
                   (quiet_world [Line "maybe"; CtrlC; Line "y"] [])
                   ["maybe"] _) [Line "y"] eq_refl).
  repeat constructor; intros H;
    repeat (apply elem_of_cons in H as [H|H]; [discriminate H|]);
    by apply elem_of_nil in H.
Defined.

(** ** Shell: one round of the loop *)

Lemma select_run_absent self word dbg sin srv ver tbl rws run evs :
  word ∉ tbl ->
  Queries.select self word (mkWorld dbg sin srv ver tbl rws [] run evs)
  = Some (Ret None,
          mkWorld dbg sin srv ver tbl [] [] run
            (evs ++ [EvExecute (Select word)])).
Proof.
  intros Hnin. run_queries. by rewrite (select_absent _ _ Hnin).
Qed.

Lemma select_run_present self word dbg sin srv ver tbl rws run evs :
  word ∈ tbl ->
  exists rest,
    Queries.select self word (mkWorld dbg sin srv ver tbl rws [] run evs)
    = Some (Ret (Some (db.word_row word)),
            mkWorld dbg sin srv ver tbl rest [] run
              (evs ++ [EvExecute (Select word)])).
Proof.
  intros Hin. run_queries. destruct (select_present _ _ Hin) as [rest ->].
  simpl. eauto.
Qed.

Lemma insert_run self word dbg sin srv ver tbl rws run evs :
  Queries.insert self word (mkWorld dbg sin srv ver tbl rws [] run evs)
  = Some (Ret tt,
          mkWorld dbg sin srv ver (tbl ++ [word]) [] [] run
            (evs ++ [EvExecute (Insert word); EvCommit])).
Proof. run_queries. by rewrite <- app_assoc. Qed.

Lemma update_run self word new_word dbg sin srv ver tbl rws run evs :
  Queries.update self word new_word (mkWorld dbg sin srv ver tbl rws [] run evs)
  = Some (Ret tt,
          mkWorld dbg sin srv ver
            (map (fun r => if String.eqb r word then new_word else r) tbl)
            [] [] run
            (evs ++ [EvExecute (Update word new_word); EvCommit])).
Proof. run_queries. by rewrite <- app_assoc. Qed.

Lemma print_run s dbg sin srv ver tbl rws fts run evs :
  print s (mkWorld dbg sin srv ver tbl rws fts run evs)
  = Some (Ret tt, mkWorld dbg sin srv ver tbl rws fts run
                    (evs ++ [EvWrite (s ++ nl)])).
Proof. reflexivity. Qed.

Lemma row_get_word word : row_get (Some (db.word_row word)) "word" = ret word.
Proof. unfold row_get, db.word_row. by rewrite lookup_singleton_eq. Qed.

Lemma prompt_run prompt v invalids rest dbg srv ver tbl rws fts run evs :
  Forall (fun t => t ∉ Shell.tokens) invalids ->
  v ∈ Shell.tokens ->
  Shell._prompt prompt
    (mkWorld dbg (map Line invalids ++ Line v :: rest) srv ver tbl rws fts run evs)
  = Some (Ret (Some (py_in v Shell.yes_tokens)),
          mkWorld dbg rest srv ver tbl rws fts run
            (evs ++ EvPrompt prompt
                 :: concat (map (fun _ => asked_again prompt) invalids))).
Proof.
  intros Hinv Hv.
  rewrite (prompt_spec prompt v invalids
             (mkWorld dbg (map Line invalids ++ Line v :: rest) srv ver tbl rws
                      fts run evs) rest eq_refl).
  - cbv [set_stdin add_events]. f_equal. f_equal. f_equal.
    apply py_in_spec in Hv. rewrite tokens_yes_or_no in Hv.
    destruct (py_in v Shell.yes_tokens); [done|].
    rewrite orb_false_l in Hv. by rewrite Hv.
  - eapply Forall_impl; [exact Hinv|]. intros t Ht. by apply py_in_false.
  - by apply py_in_spec.
Qed.

Lemma yes_is_token v : v ∈ Shell.yes_tokens -> v ∈ Shell.tokens.
Proof.
  intros Hv. apply py_in_spec. rewrite tokens_yes_or_no.
  apply py_in_spec in Hv. by rewrite Hv.
Qed.

Lemma no_is_token v : v ∈ Shell.no_tokens -> v ∈ Shell.tokens.
Proof.
  intros Hv. apply py_in_spec. rewrite tokens_yes_or_no.
  apply py_in_spec in Hv. rewrite Hv. apply orb_true_r.
Qed.

Lemma no_is_not_yes v : v ∈ Shell.no_tokens -> py_in v Shell.yes_tokens = false.
Proof.
  intros Hv. unfold Shell.no_tokens in Hv.
  repeat (apply elem_of_cons in Hv as [->|Hv]); try done.
  by apply elem_of_nil in Hv.
Qed.

(** X7.  A round of the loop for a word the table does not hold, with a
    driver that does not fail: the word is looked up, the user is asked
    whether to add it (again after each invalid answer), and on a yes the
    word is inserted, the commit asked for and the addition announced,
    while on a no nothing is sent to the server after the lookup and the
    table stays as it was.  The insertion adds one row and keeps a table
    without repeated words free of them. *)
Theorem X7_round_for_a_new_word (query : Queries.t) (w : world)
    (term v : string) (invalids : list string) (rest : list inp) :
  faults w = [] ->
  term ∉ table w ->
  stdin w = (Line term :: map Line invalids ++ Line v :: rest)%list ->
  Forall (fun t => t ∉ ["y"; "Y"; "yes"; "Yes"; "n"; "N"; "no"; "No"]) invalids ->
  let asked :=
    ([EvPrompt ask_word; EvExecute (Select term); EvPrompt (ask_add term)]
     ++ concat (map (fun _ => asked_again (ask_add term)) invalids))%list in
  (v ∈ ["y"; "Y"; "yes"; "Yes"] ->
   exists w',
     Shell._run query w = Some (Ret tt, w') /\
     table w' = (table w ++ [term])%list /\
     (NoDup (table w) -> NoDup (table w')) /\
     stdin w' = rest /\ faults w' = [] /\
     events w' =
       (events w ++ asked
        ++ [EvExecute (Insert term); EvCommit;
            EvWrite (term ++ " added to the dictionary." ++ nl)])%list) /\
  (v ∈ ["n"; "N"; "no"; "No"] ->
   exists w',
     Shell._run query w = Some (Ret tt, w') /\
     table w' = table w /\
     stdin w' = rest /\ faults w' = [] /\
     events w' = (events w ++ asked)%list).
Proof.
  destruct w as [dbg sin srv ver tbl rws fts run evs]. simpl.
  intros -> Hnin -> Hinv.
  split; intros Hv.
  - assert (Htok : v ∈ Shell.tokens) by by apply yes_is_token.
    assert (Hyes : py_in v Shell.yes_tokens = true) by by apply py_in_spec.
    eexists. split.
    + unfold Shell._run. fold ask_word.
      erewrite bind_Ret by apply input_line.
      erewrite bind_Ret by (by apply select_run_absent).
      cbv iota. fold (ask_add term).
      erewrite bind_Ret by (by apply prompt_run).
      rewrite Hyes. cbv [Shell.answered_yes].
      erewrite bind_Ret by apply insert_run.
      apply print_run.
    + simpl. split; [done|]. split.
      { intros Hnd. apply NoDup_app. split; [done|].
        split; [|apply NoDup_singleton].
        intros x Hx Hx'. apply list_elem_of_singleton in Hx' as ->. done. }
      split; [done|]. split; [done|].
      rewrite <- !app_assoc. simpl. by rewrite string_app_assoc.
  - assert (Htok : v ∈ Shell.tokens) by by apply no_is_token.
    assert (Hyes : py_in v Shell.yes_tokens = false) by by apply no_is_not_yes.
    eexists. split.
    + unfold Shell._run. fold ask_word.
      erewrite bind_Ret by apply input_line.
      erewrite bind_Ret by (by apply select_run_absent).
      cbv iota. fold (ask_add term).
      erewrite bind_Ret by (by apply prompt_run).
      rewrite Hyes. cbv [Shell.answered_yes]. reflexivity.
    + simpl. split; [done|]. split; [done|]. split; [done|].
      by rewrite <- !app_assoc.
Qed.

(** X7 on the answers [foo], [maybe], [Yes]. *)
Lemma X7_witness :
  exists w',
    Shell._run (Queries.mk db.Conn)
      (quiet_world [Line "foo"; Line "maybe"; Line "Yes"; CtrlC] ["bar"])
    = Some (Ret tt, w') /\
    table w' = ["bar"; "foo"] /\
    (NoDup ["bar"] -> NoDup (table w')) /\
    stdin w' = [CtrlC] /\ faults w' = [] /\
    events w' =
      [EvPrompt ask_word; EvExecute (Select "foo"); EvPrompt (ask_add "foo");
       EvWrite (Shell.reprompt ++ nl); EvPrompt (ask_add "foo");
       EvExecute (Insert "foo"); EvCommit;
       EvWrite ("foo added to the dictionary." ++ nl)].
Proof.
  refine (proj1 (X7_round_for_a_new_word (Queries.mk db.Conn)
                   (quiet_world [Line "foo"; Line "maybe"; Line "Yes"; CtrlC] ["bar"])
                   "foo" "Yes" ["maybe"] [CtrlC] eq_refl _ eq_refl _) _).
  - intros H. apply elem_of_cons in H as [H|H]; [discriminate H|].
    by apply elem_of_nil in H.
  - repeat constructor; intros H;
      repeat (apply elem_of_cons in H as [H|H]; [discriminate H|]);
      by apply elem_of_nil in H.
  - right; right; right; left.
Defined.

(** X8.  A round of the loop for a word the table holds, with a driver
    that does not fail: the word is looked up and shown, the user is asked
    whether to update it, and on a yes the replacement is asked for, every
    row holding the word is set to it, the commit asked for and the update
    announced, while on a no nothing is sent to the server after the
    lookup and the table stays as it was.  The replacement is written
    without a lookup of its own, so the table may then hold it twice. *)
Theorem X8_round_for_a_known_word (query : Queries.t) (w : world)
    (term v : string) (invalids : list string) :
  faults w = [] ->
  term ∈ table w ->
  Forall (fun t => t ∉ ["y"; "Y"; "yes"; "Yes"; "n"; "N"; "no"; "No"]) invalids ->
  let asked :=
    ([EvPrompt ask_word; EvExecute (Select term); EvPrompt (ask_update term)]
     ++ concat (map (fun _ => asked_again (ask_update term)) invalids))%list in
  (forall new_word rest,
     v ∈ ["y"; "Y"; "yes"; "Yes"] ->
     stdin w = (Line term :: map Line invalids
                ++ Line v :: Line new_word :: rest)%list ->
     exists w',
       Shell._run query w = Some (Ret tt, w') /\
       table w' = map (fun r => if String.eqb r term then new_word else r)
                      (table w) /\
       (new_word ∈ table w') /\
       (term <> new_word -> term ∉ table w') /\
       (new_word ∈ table w -> term <> new_word -> ~ NoDup (table w')) /\
       stdin w' = rest /\ faults w' = [] /\
       events w' =
         (events w ++ asked
          ++ [EvPrompt ("Update " ++ term ++ " as: ");
              EvExecute (Update term new_word); EvCommit;
              EvWrite ("Updated " ++ term ++ " to " ++ new_word ++ nl)])%list) /\
  (forall rest,
     v ∈ ["n"; "N"; "no"; "No"] ->
     stdin w = (Line term :: map Line invalids ++ Line v :: rest)%list ->
     exists w',
       Shell._run query w = Some (Ret tt, w') /\
       table w' = table w /\
       stdin w' = rest /\ faults w' = [] /\
       events w' = (events w ++ asked)%list).
Proof.
  destruct w as [dbg sin srv ver tbl rws fts run evs]. simpl.
  intros -> Hin Hinv. split.
  - intros new_word rest Hv ->.
    assert (Htok : v ∈ Shell.tokens) by by apply yes_is_token.
    assert (Hyes : py_in v Shell.yes_tokens = true) by by apply py_in_spec.
    destruct (select_run_present query term dbg
                (map Line invalids ++ Line v :: Line new_word :: rest)%list
                srv ver tbl rws run (evs ++ [EvPrompt ask_word]) Hin)
      as [rows' Hsel].
    eexists. split.
    + unfold Shell._run. fold ask_word.
      erewrite bind_Ret by apply input_line.
      erewrite bind_Ret by exact Hsel.
      cbv iota. rewrite !row_get_word.
      erewrite bind_Ret by reflexivity. fold (ask_update term).
      erewrite bind_Ret by (by apply prompt_run).
      rewrite Hyes. cbv [Shell.answered_yes].
      erewrite bind_Ret by reflexivity.
      erewrite bind_Ret by apply input_line.
      erewrite bind_Ret by apply update_run.
      apply print_run.
    + simpl. split; [done|].
      split; [by apply update_has_new|].
      split; [intros Hne; by apply update_lacks_old|].
      split.
      { intros Hnew Hne Hnd.
        apply list_elem_of_lookup in Hin as [i Hi].
        apply list_elem_of_lookup in Hnew as [j Hj].
        set (f := fun r : string => if String.eqb r term then new_word else r) in *.
        change (map f tbl) with (f <$> tbl) in Hnd.
        assert (Hij : i = j).
        { eapply (NoDup_lookup _ i j new_word Hnd);
            rewrite list_lookup_fmap; [rewrite Hi | rewrite Hj]; simpl; f_equal;
            unfold f; [by rewrite String.eqb_refl|].
          destruct (String.eqb_spec new_word term); congruence. }
        subst j. congruence. }
      split; [done|]. split; [done|].
      rewrite <- !app_assoc. simpl. by rewrite !string_app_assoc.
  - intros rest Hv ->.
    assert (Htok : v ∈ Shell.tokens) by by apply no_is_token.
    assert (Hyes : py_in v Shell.yes_tokens = false) by by apply no_is_not_yes.
    destruct (select_run_present query term dbg
                (map Line invalids ++ Line v :: rest)%list
                srv ver tbl rws run (evs ++ [EvPrompt ask_word]) Hin)
      as [rows' Hsel].
    eexists. split.
    + unfold Shell._run. fold ask_word.
      erewrite bind_Ret by apply input_line.
      erewrite bind_Ret by exact Hsel.
      cbv iota. rewrite !row_get_word.
      erewrite bind_Ret by reflexivity. fold (ask_update term).
      erewrite bind_Ret by (by apply prompt_run).
      rewrite Hyes. cbv [Shell.answered_yes]. reflexivity.
    + simpl. split; [done|]. split; [done|]. split; [done|].
      by rewrite <- !app_assoc.
Qed.

(** X8 on a replacement the table already holds. *)
Lemma X8_witness :
  exists w',
    Shell._run (Queries.mk db.Conn)
      (quiet_world [Line "foo"; Line "y"; Line "bar"] ["foo"; "bar"])
    = Some (Ret tt, w') /\
    table w' = ["bar"; "bar"] /\
    ~ NoDup (table w').
Proof.
  destruct (proj1 (X8_round_for_a_known_word (Queries.mk db.Conn)
                     (quiet_world [Line "foo"; Line "y"; Line "bar"]
                                  ["foo"; "bar"])
                     "foo" "y" [] eq_refl
                     (list_elem_of_here _ _) (Forall_nil_2 _))
             "bar" [] (list_elem_of_here _ _) eq_refl)
    as (w' & Hrun & Htbl & _ & _ & Hdup & _).
  exists w'. split; [exact Hrun|]. split; [exact Htbl|].
  apply Hdup; [|discriminate].
  apply list_elem_of_further, list_elem_of_here.
Defined.

(** ** Environ: what of a file matters *)

Lemma last_binding_lookup lines m key val :
  Forall well_formed lines ->
  Environ.read_lines lines ∅ = Ret m ->
  (last_binding lines key val <-> m !! key = Some val).
Proof.
  intros Hwf Hm. destruct (read_lines_spec lines ∅ Hwf) as (m' & Hm' & Hspec).
  rewrite Hm in Hm'. injection Hm' as <-. rewrite Hspec. split; [by left|].
  intros [H | [_ H]]; [done | by rewrite lookup_empty in H].
Qed.

(** X9.  The parameters [load] reads from a file depend on nothing but the
    last value the file assigns to each of the six keys: two files of
    well-formed lines that agree on those give the same result, be it a
    parameter set or an exception, whatever else they assign, in whatever
    order, and whatever the environment holds. *)
Theorem X9_load_reads_last_assignments (text1 text2 : string)
    (environ1 environ2 : gmap string string) :
  let lines1 := PyStr.readlines text1 in
  let lines2 := PyStr.readlines text2 in
  Forall well_formed lines1 ->
  Forall well_formed lines2 ->
  (forall key val,
     key ∈ six_variables ->
     (last_binding lines1 key val <-> last_binding lines2 key val)) ->
  Environ.load (Environ.TextIOWrapper text1) environ1
  = Environ.load (Environ.TextIOWrapper text2) environ2.
Proof.
  intros lines1 lines2 Hwf1 Hwf2 Hsame.
  destruct (read_lines_spec lines1 ∅ Hwf1) as (m1 & Hm1 & _).
  destruct (read_lines_spec lines2 ∅ Hwf2) as (m2 & Hm2 & _).
  assert (Heq : forall key, key ∈ six_variables -> m1 !! key = m2 !! key).
  { intros key Hkey. apply option_eq. intros val.
    rewrite <- (last_binding_lookup lines1 m1 key val Hwf1 Hm1).
    rewrite <- (last_binding_lookup lines2 m2 key val Hwf2 Hm2).
    by apply Hsame. }
  unfold Environ.load, Environ.load_env. fold lines1 lines2.
  rewrite Hm1, Hm2. unfold Environ.map_config, Environ.subscript. simpl.
  rewrite !Heq by (unfold six_variables; repeat (first [by left | right])).
  reflexivity.
Qed.

(** X9 on [file_full] and a reordering of it with more lines. *)
Lemma X9_witness :
  Environ.load (Environ.TextIOWrapper file_full) environ_full
  = Environ.load (Environ.TextIOWrapper file_reordered) ∅.
Proof.
  assert (Hwf1 : Forall well_formed (PyStr.readlines file_full))
    by well_formed_lines.
  assert (Hwf2 : Forall well_formed (PyStr.readlines file_reordered))
    by well_formed_lines.
  apply (X9_load_reads_last_assignments file_full file_reordered
           environ_full ∅ Hwf1 Hwf2).
  intros key val Hkey.
  rewrite (last_binding_lookup _ (envvars_of file_full) key val Hwf1)
    by (vm_compute; exact eq_refl).
  rewrite (last_binding_lookup _ (envvars_of file_reordered) key val Hwf2)
    by (vm_compute; exact eq_refl).
  assert (Heq : envvars_of file_full !! key = envvars_of file_reordered !! key).
  { unfold six_variables in Hkey.
    repeat (apply elem_of_cons in Hkey as [->|Hkey]);
      [| | | | | | by apply elem_of_nil in Hkey]; vm_compute; exact eq_refl. }
  by rewrite Heq.
Defined.

(** A carriage return ends a line: the text after it is read as a line
    of its own, here one without a separator. *)
Example load_carriage_return_before_key :
  PyStr.readlines file_cr_before_key
  = ("K=v" ++ nl) :: ("MYSQL_HOST" ++ nl) :: PyStr.readlines file_full /\
  Environ.load (Environ.TextIOWrapper file_cr_before_key) ∅
  = Raise (ValueError (NotEnoughValues 2 1)).
Proof. split; vm_compute; exact eq_refl. Qed.

(** ** Environ: how [load] can fail *)

Lemma read_lines_raises lines envvars e :
  Environ.read_lines lines envvars = Raise e ->
  e = ValueError (NotEnoughValues 2 1) \/ e = ValueError (TooManyValues 2).
Proof.
  revert envvars. induction lines as [|line lines IH]; intros envvars; [done|].
  simpl.
  pose proof (split_length "=" (PyStr.strip line)) as Hlen.
  destruct (PyStr.split "=" (PyStr.strip line)) as [|a [|b [|c l]]];
    simpl in *.
  - lia.
  - intros [= <-]. by left.
  - apply IH.
  - intros [= <-]. by right.
Qed.

Lemma comprehension_total items acc :
  exists m, Environ.comprehension Ret items acc = Ret m.
Proof.
  revert acc. induction items as [|[key val] items IH]; intros acc; simpl.
  - by exists acc.
  - apply IH.
Qed.

Lemma load_defaults_return e :
  match Environ.comprehension Ret Environ._DEFAULT_ENV ∅ with
  | Ret env => Environ.cast_port env
  | Raise e => Raise e
  end <> Raise e.
Proof.
  pose proof load_defaults as Hd.
  destruct (comprehension_total Environ._DEFAULT_ENV ∅) as [m Hm].
  rewrite Hm in *. congruence.
Qed.

Lemma envvars_of_read text envvars :
  Environ.read_lines (PyStr.readlines text) ∅ = Ret envvars ->
  envvars_of text = envvars.
Proof. unfold envvars_of. by intros ->. Qed.

Lemma load_raises_cases (file : Environ.file_arg)
    (environ : gmap string string) (e : exn) :
  Environ.load file environ = Raise e ->
  match file with
  | Environ.TextIOWrapper text =>
      e = ValueError (NotEnoughValues 2 1) \/
      e = ValueError (TooManyValues 2) \/
      (exists var, var ∈ six_variables /\ envvars_of text !! var = None /\
                   e = KeyError var) \/
      (exists pt, envvars_of text !! "MYSQL_PORT" = Some pt /\
                  PyStr.int pt = Raise e)
  | Environ.NoFile =>
      (forall var, var ∈ six_variables -> is_set environ var) /\
      exists pt, environ !! "MYSQL_PORT" = Some pt /\ PyStr.int pt = Raise e
  | Environ.OtherObject => False
  end.
Proof.
  intros Hload.
  revert Hload. unfold Environ.load, Environ.load_env.
  destruct file as [text| |].
  - destruct (Environ.read_lines (PyStr.readlines text) ∅)
      as [envvars|e0] eqn:Hread.
    2:{ intros [= ->]. apply read_lines_raises in Hread.
        destruct Hread; auto. }
    rewrite (envvars_of_read text envvars Hread).
    assert (Hmiss : forall var, var ∈ six_variables ->
              envvars !! var = None ->
              Environ.map_config envvars = Raise e ->
              exists var, var ∈ six_variables /\ envvars !! var = None /\
                          e = KeyError var).
    { intros var Hvar Hnone Hmap.
      destruct (comprehension_missing envvars Environ.__CONFIG_MAP ∅)
        as (kv & Hin & Hn & Hr).
      { unfold six_variables in Hvar.
        repeat (apply elem_of_cons in Hvar as [->|Hvar]);
          [| | | | | | by apply elem_of_nil in Hvar];
          eexists (_, _); (split; [|exact Hnone]);
          unfold Environ.__CONFIG_MAP; repeat (first [by left | right]). }
      unfold Environ.map_config in Hmap. rewrite Hr in Hmap.
      injection Hmap as <-. exists kv.2. split; [|done].
      by apply config_map_variables in Hin as [Hin _]. }
    destruct (envvars !! "MYSQL_HOST") as [h|] eqn:Hh.
    2:{ destruct (Environ.map_config envvars) as [env0|e0] eqn:Hmap.
        - destruct (comprehension_missing envvars Environ.__CONFIG_MAP ∅)
            as (kv & _ & _ & Hr);
            [exists ("host", "MYSQL_HOST"); split; [by left | done]|].
          unfold Environ.map_config in Hmap. by rewrite Hr in Hmap.
        - intros [= ->]. right; right; left.
          apply (Hmiss "MYSQL_HOST"); [by left | done | done]. }
    destruct (envvars !! "MYSQL_PORT") as [pt|] eqn:Hpt.
    2:{ destruct (Environ.map_config envvars) as [env0|e0] eqn:Hmap.
        - destruct (comprehension_missing envvars Environ.__CONFIG_MAP ∅)
            as (kv & _ & _ & Hr);
            [exists ("port", "MYSQL_PORT"); split; [by right; left | done]|].
          unfold Environ.map_config in Hmap. by rewrite Hr in Hmap.
        - intros [= ->]. right; right; left.
          apply (Hmiss "MYSQL_PORT"); [by right; left | done | done]. }
    destruct (envvars !! "MYSQL_USER") as [u|] eqn:Hu.
    2:{ destruct (Environ.map_config envvars) as [env0|e0] eqn:Hmap.
        - destruct (comprehension_missing envvars Environ.__CONFIG_MAP ∅)
            as (kv & _ & _ & Hr);
            [exists ("user", "MYSQL_USER"); split;
             [by right; right; left | done]|].
          unfold Environ.map_config in Hmap. by rewrite Hr in Hmap.
        - intros [= ->]. right; right; left.
          apply (Hmiss "MYSQL_USER"); [by right; right; left | done | done]. }
    destruct (envvars !! "MYSQL_PASSWORD") as [pw|] eqn:Hpw.
    2:{ destruct (Environ.map_config envvars) as [env0|e0] eqn:Hmap.
        - destruct (comprehension_missing envvars Environ.__CONFIG_MAP ∅)
            as (kv & _ & _ & Hr);
            [exists ("password", "MYSQL_PASSWORD"); split;
             [by right; right; right; left | done]|].
          unfold Environ.map_config in Hmap. by rewrite Hr in Hmap.
        - intros [= ->]. right; right; left.
          apply (Hmiss "MYSQL_PASSWORD");
            [by right; right; right; left | done | done]. }
    destruct (envvars !! "MYSQL_DATABASE") as [d|] eqn:Hd.
    2:{ destruct (Environ.map_config envvars) as [env0|e0] eqn:Hmap.
        - destruct (comprehension_missing envvars Environ.__CONFIG_MAP ∅)
            as (kv & _ & _ & Hr);
            [exists ("database", "MYSQL_DATABASE"); split;
             [by right; right; right; right; left | done]|].
          unfold Environ.map_config in Hmap. by rewrite Hr in Hmap.
        - intros [= ->]. right; right; left.
          apply (Hmiss "MYSQL_DATABASE");
            [by right; right; right; right; left | done | done]. }
    destruct (envvars !! "MYSQL_AUTH") as [a|] eqn:Ha.
    2:{ destruct (Environ.map_config envvars) as [env0|e0] eqn:Hmap.
        - destruct (comprehension_missing envvars Environ.__CONFIG_MAP ∅)
            as (kv & _ & _ & Hr);
            [exists ("auth_plugin", "MYSQL_AUTH"); split;
             [by right; right; right; right; right; left | done]|].
          unfold Environ.map_config in Hmap. by rewrite Hr in Hmap.
        - intros [= ->]. right; right; left.
          apply (Hmiss "MYSQL_AUTH");
            [by right; right; right; right; right; left | done | done]. }
    rewrite (map_config_resolved envvars h pt u pw d a Hh Hpt Hu Hpw Hd Ha).
    destruct (PyStr.int pt) as [p|e0] eqn:Hint; [done|].
    intros [= ->]. right; right; right. by exists pt.
  - destruct (forallb truthy _) eqn:Hall.
    + rewrite forallb_forall in Hall.
      assert (Hset : forall var, var ∈ six_variables -> is_set environ var).
      { intros var Hvar.
        assert (Ht : truthy (Environ.environ_get environ var) = true).
        { apply Hall. unfold six_variables in Hvar.
          repeat (apply elem_of_cons in Hvar as [->|Hvar]);
            [| | | | | | by apply elem_of_nil in Hvar]; simpl; tauto. }
        unfold Environ.environ_get in Ht.
        destruct (environ !! var) as [s|] eqn:E; [|done].
        exists s. split; [done|]. simpl in Ht.
        by destruct (String.eqb_spec s ""). }
      destruct (Hset "MYSQL_HOST") as (h & Hh & Nh); [by left|].
      destruct (Hset "MYSQL_PORT") as (pt & Hpt & Npt); [by right; left|].
      destruct (Hset "MYSQL_USER") as (u & Hu & Nu);
        [by right; right; left|].
      destruct (Hset "MYSQL_PASSWORD") as (pw & Hpw & Npw);
        [by right; right; right; left|].
      destruct (Hset "MYSQL_DATABASE") as (d & Hd & Nd);
        [by right; right; right; right; left|].
      destruct (Hset "MYSQL_AUTH") as (a & Ha & Na);
        [by right; right; right; right; right; left|].
      intros Hload. split; [done|]. exists pt. split; [done|].
      pose proof (load_environ_resolved environ h pt u pw d a
                    Hh Hpt Hu Hpw Hd Ha Nh Npt Nu Npw Nd Na) as Hres.
      unfold Environ.load, Environ.load_env in Hres.
      destruct (forallb truthy _) eqn:Hall' in Hres.
      * rewrite Hres in Hload. destruct (PyStr.int pt); congruence.
      * exfalso. apply Bool.not_true_iff_false in Hall'. apply Hall'.
        by apply forallb_forall.
    + intros Hload. by apply load_defaults_return in Hload.
  - intros Hload. by apply load_defaults_return in Hload.
Qed.

Lemma load_raises_kind file environ e :
  Environ.load file environ = Raise e ->
  (exists v, e = ValueError v) \/ (exists var, e = KeyError var).
Proof.
  intros Hload. pose proof (load_raises_cases file environ e Hload) as Hcase.
  destruct file as [text| |]; [| |done].
  - destruct Hcase as [->|[->|[(var & _ & _ & ->)|(pt & _ & Hint)]]]; eauto.
    left. by eapply int_raises.
  - destruct Hcase as (_ & pt & _ & Hint). left. by eapply int_raises.
Qed.

(** X14.  The ways [load] can fail.  On a file: the [ValueError] of the
    unpacking, for a line that has no "=" or more than one; else the
    [KeyError] naming one of the six variables, which the file does not
    assign; else the exception of [int] on the value the file gives
    MYSQL_PORT.  On the process environment: the exception of [int] on
    MYSQL_PORT, and only when the six variables are set.  On any other
    object: none.  What [int] raises is a [ValueError]; [load] raises no
    [TypeError]. *)
Theorem X14_load_failures (file : Environ.file_arg)
    (environ : gmap string string) (e : exn) :
  Environ.load file environ = Raise e ->
  ((exists v, e = ValueError v) \/ (exists var, e = KeyError var)) /\
  match file with
  | Environ.TextIOWrapper text =>
      e = ValueError (NotEnoughValues 2 1) \/
      e = ValueError (TooManyValues 2) \/
      (exists var, var ∈ six_variables /\ envvars_of text !! var = None /\
                   e = KeyError var) \/
      (exists pt, envvars_of text !! "MYSQL_PORT" = Some pt /\
                  PyStr.int pt = Raise e)
  | Environ.NoFile =>
      (forall var, var ∈ six_variables -> is_set environ var) /\
      exists pt, environ !! "MYSQL_PORT" = Some pt /\ PyStr.int pt = Raise e
  | Environ.OtherObject => False
  end.
Proof.
  intros Hload. split.
  - by eapply load_raises_kind.
  - by apply load_raises_cases.
Qed.

(** X14 on a file whose port is not a number. *)
Lemma X14_witness :
  ((exists v, ValueError (InvalidLiteral "abc") = ValueError v) \/
   (exists var, ValueError (InvalidLiteral "abc") = KeyError var)) /\
  (ValueError (InvalidLiteral "abc") = ValueError (NotEnoughValues 2 1) \/
   ValueError (InvalidLiteral "abc") = ValueError (TooManyValues 2) \/
   (exists var, var ∈ six_variables /\ envvars_of file_bad_port !! var = None /\
                ValueError (InvalidLiteral "abc") = KeyError var) \/
   (exists pt, envvars_of file_bad_port !! "MYSQL_PORT" = Some pt /\
               PyStr.int pt = Raise (ValueError (InvalidLiteral "abc")))).
Proof.
  apply (X14_load_failures (Environ.TextIOWrapper file_bad_port) ∅).
  vm_compute. exact eq_refl.
Defined.

(** ** Shell: how a run ends before the loop *)

Lemma init_run w : Shell._init w = Some (Ret tt, add_events w banner).
Proof.
  destruct w as [dbg sin srv ver tbl rws fts run evs].
  unfold Shell._init, print, write, emit, modify, bind. simpl.
  by rewrite <- app_assoc.
Qed.

Lemma run_try_after_login env w creds w1 :
  Shell.login env (add_events w banner) = Some (Ret creds, w1) ->
  Shell.run_try env w
  = Connect.with_ creds (fun conn =>
      sql <- Queries.__init__ conn ;;
      modify (fun w => set_running w true) ;;;
      Shell.main_loop sql) w1.
Proof.
  intros Hlogin. unfold Shell.run_try.
  rewrite (bind_Ret _ _ _ _ _ (init_run w)).
  by rewrite (bind_Ret _ _ _ _ _ Hlogin).
Qed.

Lemma login_keeps_server env w creds w1 :
  Shell.login env (add_events w banner) = Some (Ret creds, w1) ->
  server w1 = server w.
Proof.
  intros Hlogin.
  destruct (tame_login env (add_events w banner))
    as (r & w' & E & [(_ & Hsrv & _) _] & _).
  rewrite Hlogin in E. injection E as <- <-. rewrite Hsrv. by destruct w.
Qed.

Lemma enter_refused_with creds w f :
  server w creds = Some f ->
  Connect.__enter__ creds w
  = Some (Raise (match f with
                 | FError err => Connect.classify err
                 | FInterrupt => KeyboardInterrupt
                 end),
          add_event w (EvConnect creds)).
Proof.
  destruct w as [dbg sin srv ver tbl rws fts run evs]. simpl. intros Hsrv.
  unfold Connect.__enter__, db.connect, bind, try_, write, emit, modify, gets.
  simpl. rewrite Hsrv. by destruct f.
Qed.

Lemma exit_notice_text (e : exn) :
  EvWrite ((str_exn e ++ nl ++ "Exiting.") ++ nl) = exit_notice (str_exn e).
Proof. unfold exit_notice. by rewrite !string_app_assoc. Qed.

Lemma add_event_twice w a b :
  add_event (add_event w a) b = add_events w [a; b].
Proof. destruct w. simpl. by rewrite <- app_assoc. Qed.

Lemma run_refused env w creds w1 f :
  Shell.login env (add_events w banner) = Some (Ret creds, w1) ->
  server w creds = Some f ->
  let e := match f with
           | FError err => Connect.classify err
           | FInterrupt => KeyboardInterrupt
           end in
  Shell.run env w
  = Some (Raise (SystemExit (if is_IncorrectLogin e || is_KeyboardInterrupt e
                             then 0 else 1)),
          add_events w1 [EvConnect creds; exit_notice (str_exn e)]).
Proof.
  intros Hlogin Hsrv e.
  rewrite <- (login_keeps_server env w creds w1 Hlogin) in Hsrv.
  assert (Htry : Shell.run_try env w
                 = Some (Raise e, add_event w1 (EvConnect creds))).
  { rewrite (run_try_after_login env w creds w1 Hlogin). unfold Connect.with_.
    by rewrite (bind_Raise _ _ _ _ _ (enter_refused_with creds w1 f Hsrv)). }
  rewrite (run_spec env w e _ Htry).
  - by rewrite exit_notice_text, add_event_twice.
  - subst e. destruct f as [err|]; [|done]. unfold Connect.classify.
    intros code. by repeat case_match.
Qed.

(** X10.  When the login has given the credentials and the server refuses
    them, the run ends at once, with no close and no close notice: a
    refused password (1045) prints the fixed message about user and
    password and exits with 0; a refused database (1044) or an unknown one
    (1049) prints the driver's message and exits with 1; any other driver
    error prints its full text and exits with 1; an interrupt during the
    connection attempt prints an empty message and exits with 0. *)
Theorem X10_refused_connection_ends_the_run (env : gmap string value)
    (w w1 : world) (creds : gmap string value) (f : fault) :
  Shell.login env (add_events w banner) = Some (Ret creds, w1) ->
  server w creds = Some f ->
  let ends message code :=
    Shell.run env w
    = Some (Raise (SystemExit code),
            add_events w1 [EvConnect creds; exit_notice message]) in
  match f with
  | FInterrupt => ends "" 0
  | FError err =>
      (errno err = errorcode.ER_ACCESS_DENIED_ERROR ->
       ends "Could not login to host with user/password provided." 0) /\
      (errno err = errorcode.ER_DBACCESS_DENIED_ERROR \/
       errno err = errorcode.ER_BAD_DB_ERROR ->
       ends (msg err) 1) /\
      (errno err <> errorcode.ER_ACCESS_DENIED_ERROR ->
       errno err <> errorcode.ER_DBACCESS_DENIED_ERROR ->
       errno err <> errorcode.ER_BAD_DB_ERROR ->
       ends (full_msg err) 1)
  end.
Proof.
  intros Hlogin Hsrv ends. subst ends.
  pose proof (run_refused env w creds w1 f Hlogin Hsrv) as Hrun.
  destruct f as [err|]; [|exact Hrun].
  simpl in Hrun. unfold Connect.classify in Hrun. repeat split.
  - intros H. rewrite H in Hrun. exact Hrun.
  - intros [H | H]; rewrite H in Hrun; exact Hrun.
  - intros H1 H2 H3. apply Z.eqb_neq in H1, H2, H3.
    rewrite H1, H2, H3 in Hrun. exact Hrun.
Qed.

(** X10 on a refused password. *)
Lemma X10_witness :
  exists w1,
    Shell.run ∅
      (refusing_world [Line "localhost"; Line "3306"; Line "root"; Line "x"])
    = Some (Raise (SystemExit 0),
            add_events w1
              [EvConnect {[ "host" := VStr "localhost"; "port" := VStr "3306";
                            "user" := VStr "root"; "password" := VStr "x";
                            "database" := VStr "dictionary";
                            "auth_plugin" := VStr "caching_sha2_password" ]};
               exit_notice
                 "Could not login to host with user/password provided."]).
Proof.
  eexists.
  refine (proj1 (X10_refused_connection_ends_the_run ∅
                   (refusing_world [Line "localhost"; Line "3306"; Line "root";
                                    Line "x"]) _ _ (FError access_denied) _ eq_refl)
            eq_refl).
  apply login_asks.
Defined.

Lemma init_fails_at_version conn dbg sin srv ver tbl rws f rest run evs :
  Queries.__init__ conn
    (mkWorld dbg sin srv ver tbl rws (None :: Some f :: rest) run evs)
  = Some (Raise (exn_of_fault f),
          mkWorld dbg sin srv ver tbl rws rest run
            (evs ++ [EvExecute ShowVersion])).
Proof. reflexivity. Qed.

(** X11.  When the version query of the self-test raises, the session is
    over before any word is asked for, and the connection is closed all
    the same: after the connection notice the record holds the version
    query, the close, the close notice and the exit message, and the exit
    code is 1 for a driver error and 0 for an interrupt. *)
Theorem X11_failed_self_test_closes_the_connection (env : gmap string value)
    (w w1 : world) (creds : gmap string value) (f : fault)
    (later : list (option fault)) :
  Shell.login env (add_events w banner) = Some (Ret creds, w1) ->
  server w creds = None ->
  faults w1 = None :: Some f :: later ->
  Shell.run env w
  = Some (Raise (SystemExit (match f with FError _ => 1 | FInterrupt => 0 end)),
          set_faults
            (add_events w1
               [EvConnect creds; EvWrite Connect.connected_notice;
                EvExecute ShowVersion;
                EvClose; EvWrite Connect.closed_notice;
                exit_notice (match f with
                             | FError err => full_msg err
                             | FInterrupt => ""
                             end)])
            later).
Proof.
  intros Hlogin Hsrv Hfaults.
  rewrite <- (login_keeps_server env w creds w1 Hlogin) in Hsrv.
  assert (Htry : Shell.run_try env w
                 = Some (Raise (exn_of_fault f),
                         set_faults
                           (add_events w1
                              [EvConnect creds; EvWrite Connect.connected_notice;
                               EvExecute ShowVersion;
                               EvClose; EvWrite Connect.closed_notice])
                           later)).
  { rewrite (run_try_after_login env w creds w1 Hlogin).
    destruct w1 as [dbg sin srv ver tbl rws fts run evs].
    simpl in Hfaults. subst fts.
    rewrite (with_exit creds _ _ db.Conn _ (Raise (exn_of_fault f))
               (mkWorld dbg sin srv ver tbl rws later run
                  (evs ++ [EvConnect creds; EvWrite Connect.connected_notice;
                           EvExecute ShowVersion]))
               (enter_connected creds _ Hsrv)).
    - simpl. by rewrite <- !app_assoc.
    - cbv [add_events].
      erewrite bind_Raise by apply init_fails_at_version.
      by rewrite <- !app_assoc. }
  rewrite (run_spec env w _ _ Htry) by (intros code; by destruct f).
  rewrite exit_notice_text.
  destruct w1 as [dbg sin srv ver tbl rws fts run evs]. simpl.
  rewrite <- !app_assoc. by destruct f.
Qed.

(** X11 on a connection lost at the version query. *)
Lemma X11_witness :
  outcome (Shell.run ∅)
    (set_faults
       (quiet_world [Line "localhost"; Line "3306"; Line "root"; Line "x";
                     Line "foo"] [])
       [None; Some (FError lost_connection)])
  = Some (Raise (SystemExit 1)).
Proof.
  unfold outcome.
  erewrite (X11_failed_self_test_closes_the_connection ∅
              (set_faults
                 (quiet_world [Line "localhost"; Line "3306"; Line "root";
                               Line "x"; Line "foo"] [])
                 [None; Some (FError lost_connection)])
              _ _ (FError lost_connection) []);
    [reflexivity | apply login_asks | reflexivity | reflexivity].
Defined.

(** X12.  With [__debug__] on, a login that the user interrupts, or that
    the end of the console cuts short, before the fourth answer ends the
    run without any request to the driver: the record holds the banner,
    the questions asked so far and the exit message, and the exit code is
    0 for the interrupt and 1 for the end of input.  The message of the
    interrupt is empty; that of the end of input is the text of the
    [EOFError] of [input]. *)
Theorem X12_unfinished_login_connects_nothing (env : gmap string value)
    (w : world) (answers : list string) :
  debug w = true ->
  (length answers < 4)%nat ->
  let asked :=
    (banner ++ map EvPrompt (take (S (length answers)) login_questions))%list in
  (forall rest,
     stdin w = (map Line answers ++ CtrlC :: rest)%list ->
     Shell.run env w
     = Some (Raise (SystemExit 0),
             set_stdin (add_events w (asked ++ [exit_notice ""])) rest)) /\
  (stdin w = map Line answers ->
   Shell.run env w
   = Some (Raise (SystemExit 1),
           set_stdin
             (add_events w (asked ++ [exit_notice "EOF when reading a line"]))
             [])).
Proof.
  destruct w as [dbg sin srv ver tbl rws fts run evs]. simpl.
  intros -> Hlen.
  destruct answers as [|a1 [|a2 [|a3 [|a4 more]]]]; simpl in Hlen; try lia.
  all: split; [intros rest ->| intros ->].
  all: unfold Shell.run, Shell.run_try, Shell._init, Shell.login,
         Shell.login_prompt, Shell.run_except, Shell._exit,
         bind, try_, resume, gets, ret, raise, input, print, write, emit,
         modify, read_line; simpl; rewrite <- ?app_assoc; reflexivity.
Qed.

(** X12 on an interrupt at the question for the port. *)
Lemma X12_witness :
  Shell.run ∅ (quiet_world [Line "localhost"; CtrlC; Line "root"] [])
  = Some (Raise (SystemExit 0),
          set_stdin
            (add_events (quiet_world [] [])
               (banner
                ++ [EvPrompt "What host to connect to (localhost): ";
                    EvPrompt "What port to connect to (3306): ";
                    exit_notice ""]))
            [Line "root"]).
Proof.
  refine (proj1 (X12_unfinished_login_connects_nothing ∅
                   (quiet_world [Line "localhost"; CtrlC; Line "root"] [])
                   ["localhost"] eq_refl _)
            [Line "root"] eq_refl).
  simpl. lia.
Defined.

(** ** What no run does: take a row away *)

Lemma grows_refl w : grows w w.
Proof. split; [lia|]. exists []. by rewrite app_nil_r. Qed.

Lemma grows_same w w' :
  table w' = table w -> events w' = events w -> grows w w'.
Proof.
  intros Ht He. split; [by rewrite Ht|]. exists []. by rewrite app_nil_r.
Qed.

Lemma grows_trans w1 w2 w3 : grows w1 w2 -> grows w2 w3 -> grows w1 w3.
Proof.
  intros [L1 (e1 & E1 & F1)] [L2 (e2 & E2 & F2)]. split; [lia|].
  exists (e1 ++ e2)%list. split.
  - by rewrite E2, E1, <- app_assoc.
  - by apply Forall_app.
Qed.

Lemma growing_ret {A} (a : A) : growing (ret a).
Proof. intros w r w' [= <- <-]. apply grows_refl. Qed.

Lemma growing_raise {A} e : growing (@raise A e).
Proof. intros w r w' [= <- <-]. apply grows_refl. Qed.

Lemma growing_resume {A} (r : result A) : growing (resume r).
Proof. destruct r; [apply growing_ret | apply growing_raise]. Qed.

Lemma growing_gets {A} (f : world -> A) : growing (gets f).
Proof. intros w r w' [= <- <-]. apply grows_refl. Qed.

Lemma growing_modify f : (forall w, grows w (f w)) -> growing (modify f).
Proof. intros Hf w r w' [= <- <-]. apply Hf. Qed.

Lemma growing_bind {A B} (m : M A) (k : A -> M B) :
  growing m -> (forall a, growing (k a)) -> growing (bind m k).
Proof.
  intros Hm Hk w r w' E. unfold bind in E.
  destruct (m w) as [[[a|e] w1]|] eqn:Em; [| |done].
  - eapply grows_trans; [by eapply Hm | by eapply Hk].
  - injection E as <- <-. by eapply Hm.
Qed.

Lemma growing_try {A} (m : M A) : growing m -> growing (try_ m).
Proof.
  intros Hm w r w' E. unfold try_ in E.
  destruct (m w) as [[r1 w1]|] eqn:Em; [|done].
  injection E as <- <-. by eapply Hm.
Qed.

Lemma growing_while {S} (cond : S -> M bool) (body : S -> M S) :
  (forall s, growing (cond s)) -> (forall s, growing (body s)) ->
  forall fuel s, growing (while fuel cond body s).
Proof.
  intros Hc Hb fuel. induction fuel as [|fuel IH]; intros s; [done|].
  rewrite while_S. apply growing_bind; [apply Hc | intros [|]].
  - apply growing_bind; [apply Hb | apply IH].
  - apply growing_ret.
Qed.

Lemma growing_with_fuel {A} (f : nat -> M A) :
  (forall fuel, growing (f fuel)) -> growing (with_fuel f).
Proof. intros Hf w r w' E. by eapply Hf. Qed.

Lemma grows_add_event w ev : removes ev = false -> grows w (add_event w ev).
Proof.
  intros Hev. destruct w. split; [done|]. exists [ev]. split; [done|].
  by constructor.
Qed.

Lemma growing_emit ev : removes ev = false -> growing (emit ev).
Proof. intros Hev. apply growing_modify. intros w. by apply grows_add_event. Qed.

Lemma growing_print s : growing (print s).
Proof. by apply growing_emit. Qed.

Lemma growing_read_line eof : growing (read_line eof).
Proof.
  intros w r w' E. unfold read_line in E.
  destruct w as [dbg sin srv ver tbl rws fts run evs]. simpl in E.
  destruct sin as [|[s|] rest]; injection E as <- <-; by apply grows_same.
Qed.

Lemma growing_input prompt : growing (input prompt).
Proof.
  apply growing_bind; [by apply growing_emit | intros _; apply growing_read_line].
Qed.

Lemma growing_getpass prompt : growing (getpass prompt).
Proof.
  apply growing_bind; [by apply growing_emit | intros _; apply growing_read_line].
Qed.

Lemma growing_call : growing db.call.
Proof.
  intros w r w' E. unfold db.call in E.
  destruct w as [dbg sin srv ver tbl rws fts run evs]. simpl in E.
  destruct fts as [|[f|] rest]; injection E as <- <-; by apply grows_same.
Qed.

Lemma statement_keeps_rows ver st tbl :
  removes (EvExecute st) = false ->
  (length tbl <= length (db.run_statement ver st tbl).1)%nat.
Proof.
  destruct st; simpl; try done; intros _.
  - rewrite length_app. simpl. lia.
  - by rewrite length_map.
Qed.

Lemma growing_execute st :
  removes (EvExecute st) = false -> growing (db.execute st).
Proof.
  intros Hst. unfold db.execute.
  apply growing_bind; [by apply growing_emit | intros _].
  apply growing_bind; [apply growing_call | intros _].
  apply growing_modify. intros w.
  pose proof (statement_keeps_rows (version w) st (table w) Hst) as Hlen.
  destruct (db.run_statement (version w) st (table w)) as [tbl' rs].
  destruct w as [dbg sin srv ver tbl rws fts run evs]. simpl in *.
  split; [done|]. exists []. by rewrite app_nil_r.
Qed.

Lemma growing_fetchone : growing db.fetchone.
Proof.
  unfold db.fetchone.
  apply growing_bind; [apply growing_call | intros _].
  apply growing_bind; [apply growing_gets | intros [|r rest]].
  - apply growing_ret.
  - apply growing_bind; [|intros _; apply growing_ret].
    apply growing_modify. intros w. destruct w. by apply grows_same.
Qed.

Lemma growing_commit conn : growing (db.commit conn).
Proof.
  apply growing_bind; [by apply growing_emit | intros _; apply growing_call].
Qed.

Lemma growing_row_get row key : growing (row_get row key).
Proof.
  destruct row as [r|]; simpl; [|apply growing_raise].
  destruct (r !! key); [apply growing_ret | apply growing_raise].
Qed.

Lemma growing_set_running b : growing (modify (fun w => set_running w b)).
Proof. apply growing_modify. intros w. destruct w. by apply grows_same. Qed.

Lemma growing_with {A} creds (body : db.connection -> M A) :
  (forall conn, growing (body conn)) -> growing (Connect.with_ creds body).
Proof.
  intros Hbody. unfold Connect.with_.
  apply growing_bind; [|intros conn].
  - unfold Connect.__enter__.
    apply growing_bind; [apply growing_try | intros [conn|e]].
    + apply growing_bind; [|intros conn].
      * unfold db.connect.
        apply growing_bind; [by apply growing_emit | intros _].
        apply growing_bind; [apply growing_gets | intros srv].
        destruct (srv creds); [apply growing_raise | apply growing_ret].
      * apply growing_bind; [by apply growing_emit | intros _; apply growing_ret].
    + apply growing_ret.
    + destruct e; try apply growing_raise.
  - apply growing_bind; [by apply growing_try | intros r].
    apply growing_bind; [|intros _; apply growing_resume].
    apply growing_bind; [by apply growing_emit | intros _; by apply growing_emit].
Qed.

Lemma growing_queries_init conn : growing (Queries.__init__ conn).
Proof.
  unfold Queries.__init__, Queries.__test, db.cursor.
  apply growing_bind; [apply growing_call | intros _].
  apply growing_bind; [apply growing_try | intros r].
  - apply growing_bind; [by apply growing_execute | intros _].
    apply growing_bind; [apply growing_fetchone | intros res].
    apply growing_bind; [apply growing_row_get | intros v].
    by apply growing_emit.
  - apply growing_bind; [apply growing_resume | intros _; apply growing_ret].
Qed.

Lemma growing_prompt prompt : growing (Shell._prompt prompt).
Proof.
  unfold Shell._prompt.
  apply growing_bind; [apply growing_input | intros user_input].
  apply growing_bind; [|intros answer].
  - apply growing_with_fuel. intros fuel. apply growing_while.
    + intros s. apply growing_ret.
    + intros _. apply growing_bind; [apply growing_print | intros _].
      apply growing_input.
  - destruct (py_in answer Shell.yes_tokens); [apply growing_ret|].
    destruct (py_in answer Shell.no_tokens); apply growing_ret.
Qed.

Lemma growing_round query : growing (Shell._run query).
Proof.
  unfold Shell._run.
  apply growing_bind; [apply growing_input | intros term].
  apply growing_bind; [|intros [row|]].
  - unfold Queries.select.
    apply growing_bind; [by apply growing_execute | intros _].
    apply growing_fetchone.
  - apply growing_bind; [apply growing_row_get | intros found].
    apply growing_bind; [apply growing_prompt | intros update].
    destruct (Shell.answered_yes update); [|apply growing_ret].
    apply growing_bind; [apply growing_row_get | intros old_word].
    apply growing_bind; [apply growing_input | intros new_word].
    apply growing_bind; [|intros _; apply growing_print].
    unfold Queries.update.
    apply growing_bind; [by apply growing_execute | intros _].
    apply growing_commit.
  - apply growing_bind; [apply growing_prompt | intros addnew].
    destruct (Shell.answered_yes addnew); [|apply growing_ret].
    apply growing_bind; [|intros _; apply growing_print].
    unfold Queries.insert.
    apply growing_bind; [by apply growing_execute | intros _].
    apply growing_commit.
Qed.

Lemma growing_shell_run env : growing (Shell.run env).
Proof.
  unfold Shell.run.
  apply growing_bind; [apply growing_try | intros [[]|e]].
  - unfold Shell.run_try, Shell._init.
    apply growing_bind; [|intros _].
    { apply growing_bind; [apply growing_print | intros _; apply growing_print]. }
    apply growing_bind; [|intros creds].
    + unfold Shell.login.
      apply growing_bind; [apply growing_gets | intros dbg].
      apply growing_bind; [|intros [[[host port] user] password]; apply growing_ret].
      destruct dbg.
      * unfold Shell.login_prompt.
        apply growing_bind; [apply growing_try | intros r; apply growing_resume].
        apply growing_bind; [apply growing_input | intros _host].
        apply growing_bind; [apply growing_input | intros _port].
        apply growing_bind; [apply growing_input | intros _user].
        apply growing_bind; [apply growing_input | intros _pass].
        apply growing_ret.
      * unfold Shell.auto_login.
        apply growing_bind; [apply growing_try | intros r; apply growing_resume].
        apply growing_bind; [apply growing_print | intros _].
        apply growing_bind; [apply growing_print | intros _].
        apply growing_bind; [apply growing_print | intros _].
        apply growing_bind; [apply growing_getpass | intros _pass].
        apply growing_ret.
    + apply growing_with. intros conn.
      apply growing_bind; [apply growing_queries_init | intros sql].
      apply growing_bind; [apply growing_set_running | intros _].
      unfold Shell.main_loop. apply growing_with_fuel. intros fuel.
      apply growing_while; [intros _; apply growing_gets | intros _].
      apply growing_bind; [apply growing_try, growing_round | intros [[]|e]].
      * apply growing_ret.
      * apply growing_bind; [apply growing_set_running | intros _].
        apply growing_raise.
  - apply growing_ret.
  - unfold Shell.run_except.
    assert (Hexit : forall code,
              growing (Shell._exit e code)).
    { intros code. unfold Shell._exit.
      apply growing_bind; [apply growing_print | intros _; apply growing_raise]. }
    destruct (is_IncorrectLogin e); [apply Hexit|].
    destruct (is_Error e); [apply Hexit|].
    destruct (is_Exception e); [apply Hexit|].
    destruct (is_KeyboardInterrupt e); [apply Hexit | apply growing_raise].
Qed.

Lemma growing_shell_init file environ : growing (Shell.__init__ file environ).
Proof.
  unfold Shell.__init__.
  apply growing_bind; [apply growing_resume | intros config].
  apply growing_bind; [apply growing_set_running | intros _; apply growing_ret].
Qed.

Lemma growing_main args_file default_env environ :
  growing (main args_file default_env environ).
Proof.
  unfold main.
  apply growing_bind; [|intros env; apply growing_shell_run].
  destruct args_file as [[name text]|]; [|destruct default_env as [text|]].
  all: apply growing_bind; [apply growing_print | intros _].
  all: apply growing_shell_init.
Qed.

Lemma shell_run_exits env w :
  exists code w',
    Shell.run env w = Some (Raise (SystemExit code), w') /\
    (code = 0 \/ code = 1).
Proof.
  destruct (run_try_spec env w) as (e & w1 & evs & Htry & He & _).
  eexists _, _. split; [by apply run_spec|].
  destruct (is_IncorrectLogin e || is_KeyboardInterrupt e); auto.
Qed.

Lemma main_resolves args_file default_env environ w :
  main args_file default_env environ w
  = match Environ.load (config_source args_file default_env) environ with
    | Raise e =>
        Some (Raise e,
              add_event w (EvWrite (loading_line args_file default_env ++ nl)))
    | Ret env =>
        Shell.run env
          (set_running
             (add_event w (EvWrite (loading_line args_file default_env ++ nl)))
             false)
    end.
Proof.
  unfold main, config_source, loading_line.
  destruct args_file as [[name text]|]; [|destruct default_env as [text|]].
  all: unfold Shell.__init__, bind at 1 2 3; unfold print, write, emit, modify.
  all: match goal with
       | |- context [Environ.load ?f ?vars] =>
           destruct (Environ.load f vars) as [env|e]
       end.
  all: reflexivity.
Qed.

(** X13.  [main] resolves the configuration before anything else: when
    [Environ.load] raises on the chosen source (the file of [--file], else
    [default.env], else the process environment), [main] ends with that
    very exception after its one line about the source, with no banner, no
    question and no exit message; when it returns, what follows is the run
    on the resolved configuration, which ends by [exit] with code 0 or 1. *)
Theorem X13_main_resolves_before_it_runs
    (args_file : option (string * string)) (default_env : option string)
    (environ : gmap string string) (w : world) :
  let w0 := add_event w (EvWrite (loading_line args_file default_env ++ nl)) in
  (forall e,
     Environ.load (config_source args_file default_env) environ = Raise e ->
     main args_file default_env environ w = Some (Raise e, w0) /\
     forall code, e <> SystemExit code) /\
  (forall env,
     Environ.load (config_source args_file default_env) environ = Ret env ->
     main args_file default_env environ w
     = Shell.run env (set_running w0 false) /\
     exists code w',
       main args_file default_env environ w
       = Some (Raise (SystemExit code), w') /\
       (code = 0 \/ code = 1)).
Proof.
  intros w0. split.
  - intros e Hload. split; [by rewrite main_resolves, Hload|].
    intros code ->.
    by destruct (load_raises_kind _ _ _ Hload) as [[v Hv]|[var Hvar]].
  - intros env Hload. rewrite main_resolves, Hload. split; [done|].
    apply shell_run_exits.
Qed.

(** X13 on a file with a blank line. *)
Lemma X13_witness :
  main (Some ("my.env", file_blank_line)) None environ_full
       (quiet_world [Line "x"] [])
  = Some (Raise (ValueError (NotEnoughValues 2 1)),
          add_event (quiet_world [Line "x"] [])
            (EvWrite ("Loading env from my.env" ++ nl))).
Proof.
  apply (proj1 (X13_main_resolves_before_it_runs
                  (Some ("my.env", file_blank_line)) None environ_full
                  (quiet_world [Line "x"] []))).
  vm_compute. exact eq_refl.
Defined.

(** X15.  No run takes a row away.  Whatever the configuration, the
    answers of the user, the server and the faults of the driver, [run]
    and [main] end, the table holds at least as many rows at the end as
    at the start, and no [DELETE] statement is among the statements
    handed to the cursor: [Queries.delete] is never called. *)
Theorem X15_no_run_removes_a_row (args_file : option (string * string))
    (default_env : option string) (environ : gmap string string)
    (env : gmap string value) (w : world) :
  (exists code w',
     Shell.run env w = Some (Raise (SystemExit code), w') /\
     (length (table w) <= length (table w'))%nat /\
     exists evs, events w' = (events w ++ evs)%list /\
                 forall word, EvExecute (Delete word) ∉ evs) /\
  (exists r w',
     main args_file default_env environ w = Some (r, w') /\
     (length (table w) <= length (table w'))%nat /\
     exists evs, events w' = (events w ++ evs)%list /\
                 forall word, EvExecute (Delete word) ∉ evs).
Proof.
  assert (Hnone : forall evs,
            Forall (fun ev => removes ev = false) evs ->
            forall word, EvExecute (Delete word) ∉ evs).
  { intros evs Hall word Hin. rewrite Forall_forall in Hall.
    by specialize (Hall _ Hin). }
  split.
  - destruct (shell_run_exits env w) as (code & w' & Hrun & _).
    destruct (growing_shell_run env w _ w' Hrun) as (Hlen & evs & Hev & Hall).
    exists code, w'. split; [done|]. split; [done|]. exists evs. auto.
  - assert (Hmain : exists r w',
              main args_file default_env environ w = Some (r, w')).
    { rewrite main_resolves.
      destruct (Environ.load _ environ) as [env0|e]; [|by eauto].
      destruct (shell_run_exits env0
                  (set_running
                     (add_event w
                        (EvWrite (loading_line args_file default_env ++ nl)))
                     false)) as (code & w' & Hrun & _).
      by eauto. }
    destruct Hmain as (r & w' & Hmain).
    destruct (growing_main args_file default_env environ w r w' Hmain)
      as (Hlen & evs & Hev & Hall).
    exists r, w'. split; [done|]. split; [done|]. exists evs. auto.
Qed.

(** ** Shell: a whole session *)

Lemma prompt_answer prompt (yes : bool) rest dbg srv ver tbl rws fts run evs :
  Shell._prompt prompt
    (mkWorld dbg (Line (if yes then "y" else "n") :: rest)
             srv ver tbl rws fts run evs)
  = Some (Ret (Some yes),
          mkWorld dbg rest srv ver tbl rws fts run (evs ++ [EvPrompt prompt])).
Proof.
  destruct yes.
  - apply (prompt_run prompt "y" [] rest dbg srv ver tbl rws fts run evs);
      [constructor | by left].
  - apply (prompt_run prompt "n" [] rest dbg srv ver tbl rws fts run evs);
      [constructor | by do 4 right; left].
Qed.

Lemma round_run sql r dbg rest srv ver tbl rws run evs :
  exists rws',
    Shell._run sql
      (mkWorld dbg (typed tbl r ++ rest) srv ver tbl rws [] run evs)
    = Some (Ret tt,
            mkWorld dbg rest srv ver (after_round tbl r) rws' [] run
              (evs ++ round_events tbl r)).
Proof.
  destruct r as [term yes new_word].
  unfold typed, after_round, round_events, round_answer.
  cbv [round_term round_yes round_new].
  destruct (py_in term tbl) eqn:Hin.
  - apply py_in_spec in Hin.
    destruct (select_run_present sql term dbg
                (Line (if yes then "y" else "n")
                 :: ((if yes && true then [Line new_word] else []) ++ rest))%list
                srv ver tbl rws run (evs ++ [EvPrompt ask_word]) Hin)
      as [rows' Hsel].
    destruct yes; eexists.
    + unfold Shell._run. fold ask_word.
      erewrite bind_Ret by apply input_line.
      erewrite bind_Ret by exact Hsel.
      cbv iota. rewrite !row_get_word.
      erewrite bind_Ret by reflexivity. fold (ask_update term).
      erewrite bind_Ret by apply (prompt_answer _ true).
      cbv [Shell.answered_yes].
      erewrite bind_Ret by reflexivity.
      erewrite bind_Ret by apply input_line.
      erewrite bind_Ret by apply update_run.
      rewrite print_run. rewrite <- !app_assoc. simpl.
      by rewrite !string_app_assoc.
    + unfold Shell._run. fold ask_word.
      erewrite bind_Ret by apply input_line.
      erewrite bind_Ret by exact Hsel.
      cbv iota. rewrite !row_get_word.
      erewrite bind_Ret by reflexivity. fold (ask_update term).
      erewrite bind_Ret by apply (prompt_answer _ false).
      cbv [Shell.answered_yes]. unfold ret.
      rewrite <- !app_assoc. reflexivity.
  - apply py_in_false in Hin. rewrite andb_false_r.
    destruct yes; eexists.
    + unfold Shell._run. fold ask_word.
      erewrite bind_Ret by apply input_line.
      erewrite bind_Ret by (by apply select_run_absent).
      cbv iota. fold (ask_add term).
      erewrite bind_Ret by apply (prompt_answer _ true).
      cbv [Shell.answered_yes].
      erewrite bind_Ret by apply insert_run.
      rewrite print_run. rewrite <- !app_assoc. simpl.
      by rewrite !string_app_assoc.
    + unfold Shell._run. fold ask_word.
      erewrite bind_Ret by apply input_line.
      erewrite bind_Ret by (by apply select_run_absent).
      cbv iota. fold (ask_add term).
      erewrite bind_Ret by apply (prompt_answer _ false).
      cbv [Shell.answered_yes]. unfold ret.
      rewrite <- !app_assoc. reflexivity.
Qed.

Lemma round_interrupted sql rest dbg srv ver tbl rws fts run evs :
  Shell._run sql (mkWorld dbg (CtrlC :: rest) srv ver tbl rws fts run evs)
  = Some (Raise KeyboardInterrupt,
          mkWorld dbg rest srv ver tbl rws fts run (evs ++ [EvPrompt ask_word])).
Proof. reflexivity. Qed.

Lemma session_input_length tbl rounds :
  (length rounds <= length (session_input tbl rounds))%nat.
Proof.
  revert tbl. induction rounds as [|r more IH]; intros tbl; simpl; [lia|].
  specialize (IH (after_round tbl r)). rewrite length_app. simpl. lia.
Qed.

Lemma loop_body_raise sql w e w1 :
  Shell._run sql w = Some (Raise e, w1) ->
  (r <- try_ (Shell._run sql) ;;
   match r with
   | Ret _ => ret tt
   | Raise e => modify (fun w => set_running w false) ;;; raise e
   end) w
  = Some (Raise e, set_running w1 false).
Proof. intros H. unfold bind, try_. by rewrite H. Qed.

Lemma loop_body_ret sql w w1 :
  Shell._run sql w = Some (Ret tt, w1) ->
  (r <- try_ (Shell._run sql) ;;
   match r with
   | Ret _ => ret tt
   | Raise e => modify (fun w => set_running w false) ;;; raise e
   end) w
  = Some (Ret tt, w1).
Proof. intros H. unfold bind, try_. by rewrite H. Qed.

(** The loop of [run] over a session that ends with CTRL+C. *)
Lemma loop_session sql rounds :
  forall fuel dbg rest srv ver tbl rws evs,
    (length rounds < fuel)%nat ->
    exists rws',
      while fuel
        (fun _ : unit => gets running)
        (fun _ =>
           r <- try_ (Shell._run sql) ;;
           match r with
           | Ret _ => ret tt
           | Raise e => modify (fun w => set_running w false) ;;; raise e
           end)
        tt
        (mkWorld dbg (session_input tbl rounds ++ CtrlC :: rest) srv ver tbl
                 rws [] true evs)
      = Some (Raise KeyboardInterrupt,
              mkWorld dbg rest srv ver (session_table tbl rounds) rws' [] false
                (evs ++ session_events tbl rounds ++ [EvPrompt ask_word])).
Proof.
  induction rounds as [|r more IH];
    intros fuel dbg rest srv ver tbl rws evs Hfuel;
    (destruct fuel as [|fuel]; [simpl in Hfuel; lia|]).
  - exists rws. rewrite while_S.
    erewrite (bind_Ret _ _ _ _ true) by reflexivity. cbv beta iota.
    erewrite bind_Raise by (apply loop_body_raise, round_interrupted).
    reflexivity.
  - destruct (round_run sql r dbg
                (session_input (after_round tbl r) more ++ CtrlC :: rest)%list
                srv ver tbl rws true evs) as [rws1 Hround].
    destruct (IH fuel dbg rest srv ver (after_round tbl r) rws1
                (evs ++ round_events tbl r)%list) as [rws' Hloop];
      [simpl in Hfuel; lia|].
    exists rws'. rewrite while_S.
    erewrite (bind_Ret _ _ _ _ true) by reflexivity. cbv beta iota.
    change (session_input tbl (r :: more))
      with (typed tbl r ++ session_input (after_round tbl r) more)%list.
    rewrite <- app_assoc.
    erewrite bind_Ret by (apply loop_body_ret, Hround).
    rewrite Hloop. simpl. by rewrite <- !app_assoc.
Qed.

(** X16.  The loop of [run] over a session with a driver that does not
    fail, ended by CTRL+C at the question for a word: round after round
    the table becomes what the user's answers make of it (a word not
    found is added on a yes, a word found is replaced in every row on a
    yes, a no changes nothing), the record holds the rounds in order, and
    the interrupt leaves the loop with the flag [__running] off and goes
    on to the caller. *)
Theorem X16_session_of_rounds (sql : Queries.t) (w : world)
    (rounds : list round) (rest : list inp) :
  faults w = [] ->
  running w = true ->
  stdin w = (session_input (table w) rounds ++ CtrlC :: rest)%list ->
  exists w',
    Shell.main_loop sql w = Some (Raise KeyboardInterrupt, w') /\
    table w' = session_table (table w) rounds /\
    running w' = false /\ stdin w' = rest /\ faults w' = [] /\
    events w' = (events w ++ session_events (table w) rounds
                 ++ [EvPrompt ask_word])%list.
Proof.
  destruct w as [dbg sin srv ver tbl rws fts run evs]. simpl.
  intros -> -> ->.
  destruct (loop_session sql rounds
              (S (length (session_input tbl rounds ++ CtrlC :: rest)))
              dbg rest srv ver tbl rws evs) as [rws' Hloop].
  { pose proof (session_input_length tbl rounds). rewrite length_app. lia. }
  eexists. split; [exact Hloop|]. done.
Qed.

(** X16 on a session that adds a word, replaces it, and declines to add
    another. *)
Lemma X16_witness :
  exists w',
    Shell.main_loop (Queries.mk db.Conn)
      (set_running
         (quiet_world [Line "foo"; Line "y"; Line "foo"; Line "y"; Line "bar";
                       Line "baz"; Line "n"; CtrlC] [])
         true)
    = Some (Raise KeyboardInterrupt, w') /\
    table w' = ["bar"] /\ running w' = false /\ stdin w' = [].
Proof.
  destruct (X16_session_of_rounds (Queries.mk db.Conn)
              (set_running
                 (quiet_world [Line "foo"; Line "y"; Line "foo"; Line "y";
                               Line "bar"; Line "baz"; Line "n"; CtrlC] [])
                 true)
              [Round "foo" true ""; Round "foo" true "bar";
               Round "baz" false ""] [] eq_refl eq_refl eq_refl)
    as (w' & Hrun & Htbl & Hflag & Hin & _).
  exists w'. split; [exact Hrun|]. split; [exact Htbl|]. by split.
Defined.

(** ** The whole program on a session without faults *)

Lemma init_succeeds conn dbg sin srv ver tbl rws run evs :
  Queries.__init__ conn (mkWorld dbg sin srv ver tbl rws [] run evs)
  = Some (Ret (Queries.mk conn),
          mkWorld dbg sin srv ver tbl [] [] run
            (evs ++ [EvExecute ShowVersion; EvWrite ("MySQL v" ++ ver ++ nl)])).
Proof.
  unfold Queries.__init__, Queries.__test, db.cursor, db.execute,
    db.fetchone, db.call, row_get, write, emit, modify, gets, bind,
    try_, resume, ret, raise; simpl.
  rewrite row_lookup_value. simpl. by rewrite <- app_assoc.
Qed.

(** X17.  The whole of [run] on a session without faults, with
    [__debug__] on: the banner, the four questions, the connection with
    the answers as typed, the version of the server, then the rounds of
    the session, and at the user's CTRL+C the close of the connection, its
    notice, an exit message with no text of its own, and exit code 0.  The
    table is left as the rounds made it. *)
Theorem X17_run_of_a_session (env : gmap string value) (w : world)
    (host port user password : string) (rounds : list round)
    (rest : list inp) :
  let creds : gmap string value :=
    {[ "host" := VStr host; "port" := VStr port;
       "user" := VStr user; "password" := VStr password;
       "database" := get_or env "database" (VStr "dictionary");
       "auth_plugin" :=
         get_or env "auth_plugin" (VStr "caching_sha2_password") ]} in
  debug w = true ->
  faults w = [] ->
  server w creds = None ->
  stdin w = (Line host :: Line port :: Line user :: Line password
             :: session_input (table w) rounds ++ CtrlC :: rest)%list ->
  exists w',
    Shell.run env w = Some (Raise (SystemExit 0), w') /\
    table w' = session_table (table w) rounds /\
    stdin w' = rest /\
    events w' =
      (events w ++ banner ++ map EvPrompt login_questions
       ++ [EvConnect creds; EvWrite Connect.connected_notice;
           EvExecute ShowVersion; EvWrite ("MySQL v" ++ version w ++ nl)]
       ++ session_events (table w) rounds
       ++ [EvPrompt ask_word; EvClose; EvWrite Connect.closed_notice;
           exit_notice ""])%list.
Proof.
  intros creds.
  destruct w as [dbg sin srv ver tbl rws fts run evs]. simpl.
  intros -> -> Hsrv ->.
  set (evs1 := ((evs ++ banner) ++ map EvPrompt login_questions)%list).
  set (evs2 := ((evs1 ++ [EvConnect creds; EvWrite Connect.connected_notice])
                ++ [EvExecute ShowVersion; EvWrite ("MySQL v" ++ ver ++ nl)])%list).
  destruct (loop_session (Queries.mk db.Conn) rounds
              (S (length (session_input tbl rounds ++ CtrlC :: rest)))
              true rest srv ver tbl [] evs2) as [rws' Hloop].
  { pose proof (session_input_length tbl rounds). rewrite length_app. lia. }
  assert (Htry :
    Shell.run_try env
      (mkWorld true
         (Line host :: Line port :: Line user :: Line password
          :: session_input tbl rounds ++ CtrlC :: rest)
         srv ver tbl rws [] run evs)
    = Some (Raise KeyboardInterrupt,
            mkWorld true rest srv ver (session_table tbl rounds) rws' [] false
              (((evs2 ++ session_events tbl rounds ++ [EvPrompt ask_word])
                ++ [EvClose; EvWrite Connect.closed_notice])%list))).
  { rewrite (run_try_after_login env _ creds
               (mkWorld true (session_input tbl rounds ++ CtrlC :: rest)
                        srv ver tbl rws [] run evs1))
      by apply login_asks.
    rewrite (with_exit creds _ _ db.Conn
               (mkWorld true (session_input tbl rounds ++ CtrlC :: rest)
                  srv ver tbl rws [] run
                  (evs1 ++ [EvConnect creds; EvWrite Connect.connected_notice]))
               (Raise KeyboardInterrupt)
               (mkWorld true rest srv ver (session_table tbl rounds) rws' []
                  false
                  (evs2 ++ session_events tbl rounds ++ [EvPrompt ask_word]))).
    - reflexivity.
    - by apply (enter_connected creds
                  (mkWorld true (session_input tbl rounds ++ CtrlC :: rest)
                     srv ver tbl rws [] run evs1)).
    - erewrite bind_Ret by apply init_succeeds.
      erewrite bind_Ret by reflexivity.
      exact Hloop. }
  eexists. split.
  - rewrite (run_spec env _ _ _ Htry) by done.
    rewrite exit_notice_text. reflexivity.
  - simpl. split; [done|]. split; [done|].
    unfold evs2, evs1. rewrite <- !app_assoc. reflexivity.
Qed.

(** X17 on a session that adds one word. *)
Lemma X17_witness :
  exists w',
    Shell.run ∅
      (quiet_world [Line "localhost"; Line "3306"; Line "root"; Line "x";
                    Line "foo"; Line "y"; CtrlC] ["bar"])
    = Some (Raise (SystemExit 0), w') /\
    table w' = ["bar"; "foo"] /\ stdin w' = [].
Proof.
  destruct (X17_run_of_a_session ∅
              (quiet_world [Line "localhost"; Line "3306"; Line "root";
                            Line "x"; Line "foo"; Line "y"; CtrlC] ["bar"])
              "localhost" "3306" "root" "x" [Round "foo" true ""] []
              eq_refl eq_refl eq_refl eq_refl)
    as (w' & Hrun & Htbl & Hin & _).
  exists w'. split; [exact Hrun|]. by split.
Defined.
